(** * PYE3 startup orchestrator ([main.py]): a shallow embedding

    [main.py] is effectful glue code: every interesting step is a call into a
    collaborator (configuration, log book, data manager, Qt widgets, the file
    system).  The embedding keeps the control flow of the Python source and
    replaces the collaborators by an oracle, the [World]:

    - every collaborator call is a constructor of [call], carrying the
      arguments the source passes;
    - a call may return or raise; what it does is decided by the world, as a
      function of the call and of the whole history of earlier calls;
    - a run threads the history (a chronological list of [event]s) through
      the program and ends in an [outcome]: a returned value, a propagating
      Python exception, or [SystemExit] (raised by [sys.exit], which
      [except Exception] does not catch).

    Theorems quantify over all worlds; what a property needs from the
    collaborators appears as a hypothesis on the world. *)

From Stdlib Require Import List String Ascii ZArith Bool Arith Lia.
Import ListNotations.

Local Open Scope string_scope.
Local Open Scope list_scope.

Notation "a +++ b" := (String.append a b) (at level 60, right associativity).

(* ================================================================== *)
(** * Python values used by the startup code *)
(* ================================================================== *)

(** Severity passed to [LogBook.log_event]. *)
Inductive level := info | warning | error.

(** An instance of (a subclass of) [Exception]; the source only ever looks
    at [str(e)]. *)
Inductive exn := Exception (msg : string).

Definition str (e : exn) : string := let 'Exception m := e in m.

(** [pathlib.Path], by its rendering [str(p)].  How [p / name] is rendered
    depends on the platform and on [pathlib]'s normalisation; it is read
    from the collaborators ([path_join] below). *)
Definition path := string.

(** A configuration setting ([config.get_setting]). *)
Inductive value := VInt (z : Z) | VStr (s : string).

(** Line feed, for the dialog texts. *)
Definition nl : string := String "010"%char EmptyString.

(** [needle in hay] on Python strings. *)
Fixpoint contains (needle hay : string) : bool :=
  String.prefix needle hay ||
  match hay with
  | EmptyString => false
  | String _ rest => contains needle rest
  end.

(** Truthiness of the values the source tests with [if]. *)
Definition truthy_str (s : string) : bool :=
  match s with EmptyString => false | _ => true end.

Definition truthy_chunk (chunk_size : option Z) : bool :=
  match chunk_size with
  | None => false
  | Some z => negb (Z.eqb z 0)
  end.

(* ================================================================== *)
(** * Collaborator calls, events and worlds *)
(* ================================================================== *)

Inductive call :=
  (* PySide6 application object *)
  | QApplication_new
  | app_setWindowIcon (icon : path)
  | app_exec
  (* core.config *)
  | config_get_path (key : string)
  | config_get_data_file_path (key : string)
  | config_get_setting (key : string) (default : value)
  (* core.logbook.LogBook *)
  | LogBook_new (log_file : option string)
  | get_username_from_path
  | log_event (username category message : string) (lvl : level)
  (* core.wind_farm_data_manager.WindFarmDataManager *)
  | WF_load_data (data_path : string) (chunk_size : option Z)
  | WF_create_default_data
  | WF_monitor_memory_usage
  (* QMessageBox; [on_window] is false where the parent is [None] *)
  | QMessageBox_warning (on_window : bool) (title text : string)
  | QMessageBox_critical (title text : string)
  (* pathlib *)
  | Path_is_dir (p : path)
  | Path_mkdir (p : path)
  | Path_exists (p : path)
  (* AuthService and MainWindow *)
  | AuthService_new
  | MainWindow_new
  | hasattr_set_auth_service
  | window_set_auth_service
  | window_show
  | window_check_for_updates
  | combo_box_currentText
  | dashboard_update_dashboard (park : string)
  | hasattr_import_raw_data_page
  | import_page_update_park_name (park : string)
  | title_bar_update_selected_park (park : string)
  (* ui.splash_screen.SplashScreen *)
  | SplashScreen_new (gif_dir version_text logo_path : string)
                     (duration background_color border_radius : value)
  | splash_show
  | splash_closed_connect
  | splash_closed_emitted
  | slot_exception_reported (cause : exn)
  (* side effects of the retry executor and of the critical error boundary *)
  | retry_log_failure (attempt : nat) (cause : exn)
  | retry_wait (attempt : nat)
  | boundary_log (cause : exn)
  | boundary_dialog.

(** One collaborator call and how it ended. *)
Inductive event :=
  | Returned (c : call)
  | Raised (c : call) (e : exn).

Definition ev_call (ev : event) : call :=
  match ev with Returned c => c | Raised c _ => c end.

Definition history := list event.

(** The collaborators.  [raises] says whether a call raises, the other
    fields give the value of a call that returns; all of them may depend on
    the history.  [path_join p name] is [str(p / name)] as [pathlib]
    computes it where the program runs: a pure function, with no record in
    the history.  [max_attempts] and [retryable] are the retry policy of
    [ErrorRecoveryManager.file_operation_retry], whose module is not part
    of the sources at hand. *)
Record World := mkWorld {
  raises : history -> call -> option exn;
  truth : history -> call -> bool;
  text : history -> call -> string;
  number : history -> call -> Z;
  setting : history -> call -> value;
  path_join : path -> string -> path;
  max_attempts : nat;
  retryable : exn -> bool
}.

(* ================================================================== *)
(** * The effect monad *)
(* ================================================================== *)

Inductive outcome (A : Type) :=
  | Return (a : A)
  | Raise (e : exn)
  | SystemExit (code : Z).

Arguments Return {A} a.
Arguments Raise {A} e.
Arguments SystemExit {A} code.

Definition M (A : Type) : Type := World -> history -> outcome A * history.

Definition ret {A} (a : A) : M A := fun _ h => (Return a, h).

Definition bind {A B} (m : M A) (k : A -> M B) : M B :=
  fun w h =>
    match m w h with
    | (Return a, h') => k a w h'
    | (Raise e, h') => (Raise e, h')
    | (SystemExit c, h') => (SystemExit c, h')
    end.

Notation "x <- m ;; k" := (bind m (fun x => k))
  (at level 61, m at next level, right associativity).
Notation "m ;; k" := (bind m (fun _ => k))
  (at level 61, right associativity).

(** A collaborator call whose returned value is read with [answer].  The
    call returns or raises an [Exception]; a collaborator that ends the
    process itself or is interrupted ([SystemExit], [KeyboardInterrupt]:
    exceptions that no [except Exception] clause catches) is not
    described. *)
Definition ext {A} (answer : World -> history -> call -> A) (c : call) : M A :=
  fun w h =>
    match raises w h c with
    | Some e => (Raise e, h ++ [Raised c e])
    | None => (Return (answer w h c), h ++ [Returned c])
    end.

Definition ext_unit : call -> M unit := ext (fun _ _ _ => tt).
Definition ext_bool : call -> M bool := ext truth.
Definition ext_text : call -> M string := ext text.
Definition ext_setting : call -> M value := ext setting.

(** [p / name] of [pathlib], rendered by [str]. *)
Definition joinpath (p : path) (name : string) : M path :=
  fun w h => (Return (path_join w p name), h).

(** An effect that is only recorded. *)
Definition emit (c : call) : M unit := fun _ h => (Return tt, h ++ [Returned c]).

(** [try: body except Exception as e: handler e]. *)
Definition try_except {A} (body : M A) (handler : exn -> M A) : M A :=
  fun w h =>
    match body w h with
    | (Raise e, h') => handler e w h'
    | r => r
    end.

(** [sys.exit(code)]. *)
Definition sys_exit {A} (code : Z) : M A := fun _ h => (SystemExit code, h).

(* ================================================================== *)
(** * core.services: the decorators applied in [main.py] *)
(* ================================================================== *)

Section Retry.
Context {A : Type}.

(** Modelled from the spec: [ErrorRecoveryManager.file_operation_retry]
    (module [core.services.error_recovery], not among the sources).  The
    executor runs the operation up to [max_attempts] times; a failed
    attempt is logged with its index and cause; after a retryable failure
    with attempts left it waits and retries; on a terminal failure or when
    the attempts are used up the failure is propagated to the caller.

    Besides the result the loop returns the outcomes of the attempts it
    made, oldest first; this list is bookkeeping for the proofs and has no
    influence on the result.  [attempt_runs] below says what it means for
    such a list to be the record of the runs of the operation. *)
Fixpoint retry_loop (n attempt : nat) (last : exn) (op : M A)
         (w : World) (h : history) : (outcome A * history) * list (outcome A) :=
  match n with
  | 0 => ((Raise last, h), [])
  | S n' =>
      match op w h with
      | (Raise e, h1) =>
          let h2 := h1 ++ [Returned (retry_log_failure attempt e)] in
          if retryable w e && negb (Nat.eqb n' 0) then
            let '(res, made) :=
              retry_loop n' (S attempt) e op w
                         (h2 ++ [Returned (retry_wait attempt)]) in
            (res, Raise e :: made)
          else ((Raise e, h2), [Raise e])
      | (r, h1) => ((r, h1), [r])
      end
  end.

(** Raised when the policy allows no attempt at all. *)
Definition no_attempt : exn := Exception "no attempt allowed".

Definition file_operation_retry (op : M A) : M A :=
  fun w h => fst (retry_loop (max_attempts w) 1 no_attempt op w h).

(** The outcomes of the attempts made by the decorated operation. *)
Definition attempts_made (op : M A) (w : World) (h : history) : list (outcome A) :=
  snd (retry_loop (max_attempts w) 1 no_attempt op w h).
End Retry.

(** Modelled from the spec: [handle_critical_errors]
    (module [core.services.application_error_handler], not among the
    sources).  An exception that escapes the wrapped function is caught
    once, logged, reported in a blocking dialog, and the process exits with
    a non-zero status.  [SystemExit] is not an [Exception] and passes. *)
Definition handle_critical_errors (f : M unit) : M unit :=
  try_except f
    (fun e => emit (boundary_log e) ;; emit boundary_dialog ;; sys_exit 1%Z).

(* ================================================================== *)
(** * main.py *)
(* ================================================================== *)

(** Body of [load_data] (lines 36-55), before decoration. *)
Definition load_data_body (data_path : string) (chunk_size : option Z) : M bool :=
  ext_unit (LogBook_new None) ;;
  username <- ext_text get_username_from_path ;;
  try_except
    ((if truthy_chunk chunk_size
      then ext_unit (WF_load_data data_path chunk_size)
      else ext_unit (WF_load_data data_path None)) ;;
     ret true)
    (fun e =>
       ext_unit (log_event username "Data Loading Error"
                           ("Error loading data: " +++ str e) error) ;;
       if contains "No such file or directory" (str e) then
         ext_unit (log_event username "Data Creation"
                             "Creating default data file..." info) ;;
         ext_unit WF_create_default_data ;;
         ret true
       else ret false).

(** [load_data], as decorated on line 35. *)
Definition load_data (data_path : string) (chunk_size : option Z) : M bool :=
  file_operation_retry (load_data_body data_path chunk_size).

Definition fallback_warning_text : string :=
  "Failed to load application data. The application will start with minimal functionality."
  +++ nl +++ nl +++
  "Please check the log file for details and contact support if the problem persists.".

(** Body of the inner [_create_empty_data_fallback_impl] (lines 66-85). *)
Definition create_empty_data_fallback_impl_body : M unit :=
  ext_unit (LogBook_new None) ;;
  username <- ext_text get_username_from_path ;;
  ext_unit (log_event username "Data Loading Fallback"
                      "Creating empty default data to allow application to start"
                      warning) ;;
  ext_unit WF_create_default_data ;;
  ext_unit (QMessageBox_warning false "Data Loading Error" fallback_warning_text).

(** [create_empty_data_fallback] (lines 57-88): the decorated inner
    function, called once. *)
Definition create_empty_data_fallback : M unit :=
  file_operation_retry create_empty_data_fallback_impl_body.

(** ** The stages of [main] *)

(** Lines 98-102: the Qt application object, the log book and the operator
    identity. *)
Definition logging_init : M string :=
  ext_unit QApplication_new ;;
  log_file <- ext_text (config_get_path "LOG_FILE") ;;
  ext_unit (LogBook_new (Some log_file)) ;;
  ext_text get_username_from_path.

(** Lines 105-110: the value returned by [load_data] is not used. *)
Definition data_bootstrap : M unit :=
  data_file_path <- ext_text (config_get_data_file_path "TURBINE_INFO") ;;
  try_except
    (load_data data_file_path None ;; ret tt)
    (fun _ => create_empty_data_fallback).

(** Lines 112-113. *)
Definition window_icon : M unit :=
  icons <- ext_text (config_get_path "ICONS_DIR") ;;
  icon_path <- joinpath icons "logo_app.ico" ;;
  ext_unit (app_setWindowIcon icon_path).

(** Lines 116-117: [GIF_DIRECTORY] and [LOGO_PATH]. *)
Definition resource_paths : M (path * path) :=
  gif_directory <- ext_text (config_get_path "GIF_DIR") ;;
  icons <- ext_text (config_get_path "ICONS_DIR") ;;
  logo_path <- joinpath icons "splash_icon.svg" ;;
  ret (gif_directory, logo_path).

Definition gif_error_text (gif_directory : path) : string :=
  "GIF directory not found and could not be created: " +++ gif_directory.

Definition gif_dialog_text (gif_directory : path) (e : exn) : string :=
  gif_error_text gif_directory +++ nl +++ nl +++
  "Error: " +++ str e +++ nl +++ nl +++ "The application will now exit.".

(** Lines 121-134. *)
Definition resolve_gif_directory (username : string) (gif_directory : path) : M unit :=
  present <- ext_bool (Path_is_dir gif_directory) ;;
  if negb present then
    try_except
      (ext_unit (Path_mkdir gif_directory) ;;
       ext_unit (log_event username "Resource Creation"
                           ("Created missing GIF directory: " +++ gif_directory) info))
      (fun e =>
         ext_unit (log_event username "Resource Error"
                             (gif_error_text gif_directory) error) ;;
         ext_unit (log_event username "Resource Error" ("Error: " +++ str e) error) ;;
         ext_unit (QMessageBox_critical "Resource Error"
                                        (gif_dialog_text gif_directory e)) ;;
         sys_exit 1%Z)
  else ret tt.

Definition logo_dialog_text (logo_path : path) : string :=
  "Logo file not found: " +++ logo_path +++ nl +++ nl +++
  "No fallback logo available. The application will now exit.".

(** Lines 136-150; the result is the [LOGO_PATH] used from then on. *)
Definition resolve_logo (username : string) (logo_path : path) : M path :=
  present <- ext_bool (Path_exists logo_path) ;;
  if negb present then
    ext_unit (log_event username "Resource Warning"
                        ("Logo file not found: " +++ logo_path) warning) ;;
    icons <- ext_text (config_get_path "ICONS_DIR") ;;
    fallback_logo <- joinpath icons "fallback_logo.svg" ;;
    fallback_present <- ext_bool (Path_exists fallback_logo) ;;
    if fallback_present then
      ext_unit (log_event username "Resource Fallback"
                          ("Using fallback logo: " +++ fallback_logo) info) ;;
      ret fallback_logo
    else
      ext_unit (QMessageBox_critical "Resource Error" (logo_dialog_text logo_path)) ;;
      sys_exit 1%Z
  else ret logo_path.

(** Lines 153-154; binding the log book is an attribute assignment. *)
Definition auth_init : M unit := ext_unit AuthService_new.

(** Line 157. *)
Definition window_construction : M unit := ext_unit MainWindow_new.

(** Lines 160-170. *)
Definition loading_screen_display (gif_directory logo_path : path) : M unit :=
  duration <- ext_setting (config_get_setting "splash_duration" (VInt 2000)) ;;
  background_color <-
    ext_setting (config_get_setting "splash_background_color" (VStr "#FFFFFF")) ;;
  border_radius <- ext_setting (config_get_setting "splash_border_radius" (VInt 10)) ;;
  ext_unit (SplashScreen_new gif_directory "PYE" logo_path
                             duration background_color border_radius) ;;
  ext_unit splash_show.

(** ** [on_splash_closed] (lines 172-233), task by task *)

(** Lines 178-179. *)
Definition task1_bind_auth : M unit :=
  supported <- ext_bool hasattr_set_auth_service ;;
  if supported then ext_unit window_set_auth_service else ret tt.

(** Line 181. *)
Definition task2_show_window : M unit := ext_unit window_show.

(** Lines 184-193. *)
Definition task3_update_check : M unit :=
  try_except
    (ext_unit window_check_for_updates)
    (fun e =>
       username <- ext_text get_username_from_path ;;
       ext_unit (log_event username "Update Check Error"
                           ("Error checking for updates: " +++ str e) error)).

Definition dashboard_warning_text : string :=
  "Error initializing the dashboard. Some features may not work correctly."
  +++ nl +++ nl +++ "Please check the application log for details.".

(** The [try] block of lines 197-207. *)
Definition task4_updates : M unit :=
  selected_park <- ext_text combo_box_currentText ;;
  if truthy_str selected_park then
    ext_unit (dashboard_update_dashboard selected_park) ;;
    has_import_page <- ext_bool hasattr_import_raw_data_page ;;
    (if has_import_page
     then ext_unit (import_page_update_park_name selected_park)
     else ret tt) ;;
    ext_unit (title_bar_update_selected_park selected_park)
  else ret tt.

(** Lines 196-221. *)
Definition task4_dashboard : M unit :=
  try_except
    task4_updates
    (fun e =>
       username <- ext_text get_username_from_path ;;
       ext_unit (log_event username "Dashboard Initialization Error"
                           ("Error initializing dashboard: " +++ str e) error) ;;
       ext_unit (QMessageBox_warning true "Dashboard Error" dashboard_warning_text)).

(** Lines 224-233. *)
Definition task5_memory : M unit :=
  try_except
    (ext_unit WF_monitor_memory_usage)
    (fun e =>
       username <- ext_text get_username_from_path ;;
       ext_unit (log_event username "Memory Monitoring Error"
                           ("Error monitoring memory usage: " +++ str e) warning)).

Definition on_splash_closed : M unit :=
  task1_bind_auth ;;
  task2_show_window ;;
  task3_update_check ;;
  task4_dashboard ;;
  task5_memory.

(** Modelled from the spec: the Qt event loop entered by [app.exec()] and
    the [splash_closed] signal of [ui.splash_screen.SplashScreen] (not
    among the sources).  The loading screen reports completion at most
    once, and only while the event loop runs; the connected slot then runs
    to its end.  An exception leaving a slot is reported by the loop, which
    goes on until the application quits and [exec] returns its status. *)
Definition event_loop (slot : M unit) : M Z :=
  ext_unit app_exec ;;
  (fun w h =>
     if truth w h splash_closed_emitted
     then (emit splash_closed_emitted ;;
           try_except slot (fun e => emit (slot_exception_reported e))) w h
     else ret tt w h) ;;
  fun w h => (Return (number w h app_exec), h).

(** Lines 153-237: what remains of [main] once the resources are
    resolved. *)
Definition auth_onward (gif_directory logo_path : path) : M unit :=
  auth_init ;;
  window_construction ;;
  loading_screen_display gif_directory logo_path ;;
  ext_unit splash_closed_connect ;;
  status <- event_loop on_splash_closed ;;
  sys_exit status.

(** Lines 112-237: what remains of [main] after the data bootstrap. *)
Definition resources_onward (username : string) : M unit :=
  window_icon ;;
  paths <- resource_paths ;;
  resolve_gif_directory username (fst paths) ;;
  logo_path <- resolve_logo username (snd paths) ;;
  auth_onward (fst paths) logo_path.

(** Body of [main] (lines 98-237). *)
Definition main_body : M unit :=
  username <- logging_init ;;
  data_bootstrap ;;
  resources_onward username.

(** [main], as decorated on line 90. *)
Definition main : M unit := handle_critical_errors main_body.

(* ================================================================== *)
(** * Vocabulary of the properties *)
(* ================================================================== *)

(** The log book and the message boxes: the channels on which the startup
    code reports. *)
Definition is_sink (c : call) : bool :=
  match c with
  | LogBook_new _ | get_username_from_path | log_event _ _ _ _
  | QMessageBox_warning _ _ _ | QMessageBox_critical _ _ => true
  | _ => false
  end.

(** Reporting itself does not fail. *)
Definition sink_ok (w : World) : Prop :=
  forall h c, is_sink c = true -> raises w h c = None.

(** The call [WindFarmDataManager.load_data] that [load_data] makes. *)
Definition load_call (data_path : string) (chunk_size : option Z) : call :=
  WF_load_data data_path (if truthy_chunk chunk_size then chunk_size else None).

(** What one run of [load_data] records when the data file is missing and
    the default data can be created. *)
Definition missing_file_events (user : string) (load : call) (e : exn) : history :=
  [ Returned (LogBook_new None);
    Returned get_username_from_path;
    Raised load e;
    Returned (log_event user "Data Loading Error" ("Error loading data: " +++ str e) error);
    Returned (log_event user "Data Creation" "Creating default data file..." info);
    Returned WF_create_default_data ].

(** The default data set has been synthesized. *)
Definition default_data_created (ev : event) : bool :=
  match ev with Returned WF_create_default_data => true | _ => false end.

(** A warning dialog is put before the user. *)
Definition shows_warning (ev : event) : bool :=
  match ev_call ev with QMessageBox_warning _ _ _ => true | _ => false end.

Definition is_failure {A} (r : outcome A) : Prop := exists e, r = Raise e.

(** [made] lists the outcomes of consecutive runs of [op], and [h'] is
    the history they leave: the first run starts from [h]; a failed run is
    followed by the log entry about it, and by a wait when another run
    follows; every other run starts from the history reached so far; only
    a failed run is followed by another one. *)
Fixpoint attempt_runs {A} (op : M A) (w : World) (attempt : nat) (h : history)
         (made : list (outcome A)) (h' : history) : Prop :=
  match made with
  | [] => h' = h
  | r :: later =>
      fst (op w h) = r /\
      match r, later with
      | Raise e, [] =>
          h' = snd (op w h) ++ [Returned (retry_log_failure attempt e)]
      | Raise e, _ :: _ =>
          attempt_runs op w (S attempt)
                       (snd (op w h) ++ [ Returned (retry_log_failure attempt e);
                                          Returned (retry_wait attempt) ])
                       later h'
      | _, [] => h' = snd (op w h)
      | _, _ :: _ => False
      end
  end.

(** The operation, leaving the record [c] each time it is invoked. *)
Definition announced {A} (c : call) (op : M A) : M A := emit c ;; op.

(** Number of events of [t] selected by [mark]. *)
Definition count_marked (mark : event -> bool) (t : history) : nat :=
  List.length (filter mark t).

(** [op] records nothing that [mark] selects. *)
Definition unmarked {A} (mark : event -> bool) (op : M A) : Prop :=
  forall w h, exists t, snd (op w h) = h ++ t /\ count_marked mark t = 0.

(** A record used to announce an invocation. *)
Definition invocation_note : call := LogBook_new (Some "invocation").
Definition is_invocation_note (ev : event) : bool :=
  match ev with
  | Returned (LogBook_new (Some "invocation")) => true
  | _ => false
  end.

(** ** Sample worlds *)

(** [p / name] as [pathlib] renders it on a POSIX system, for a name of
    one component: a rendered path ends with a slash only when it is a
    root, and the current directory (rendered as a dot, written as a dot
    or as the empty string) is left out. *)
Fixpoint ends_with_slash (p : string) : bool :=
  match p with
  | EmptyString => false
  | String c EmptyString => Ascii.eqb c "/"%char
  | String _ rest => ends_with_slash rest
  end.

Definition posix_join (p : path) (name : string) : path :=
  if ends_with_slash p then p +++ name
  else if String.eqb p "." || String.eqb p "" then name
  else p +++ "/" +++ name.

(** Every collaborator works: resources are present, a park is selected;
    paths are those of a POSIX system. *)
Definition happy : World :=
  {| raises := fun _ _ => None;
     truth := fun _ c =>
       match c with
       | Path_is_dir _ | Path_exists _ | hasattr_set_auth_service
       | hasattr_import_raw_data_page | splash_closed_emitted => true
       | _ => false
       end;
     text := fun _ c =>
       match c with
       | config_get_path key => "/opt/pye/" +++ key
       | config_get_data_file_path key => "/opt/pye/data/" +++ key
       | get_username_from_path => "pierre"
       | combo_box_currentText => "Park A"
       | _ => ""
       end;
     number := fun _ _ => 0%Z;
     setting := fun _ c =>
       match c with config_get_setting _ default => default | _ => VInt 0 end;
     path_join := posix_join;
     max_attempts := 3;
     retryable := fun _ => true |}.

Definition with_raises (r : history -> call -> option exn) (w : World) : World :=
  {| raises := r; truth := truth w; text := text w; number := number w;
     setting := setting w; path_join := path_join w;
     max_attempts := max_attempts w;
     retryable := retryable w |}.

Definition with_truth (t : history -> call -> bool) (w : World) : World :=
  {| raises := raises w; truth := t; text := text w; number := number w;
     setting := setting w; path_join := path_join w;
     max_attempts := max_attempts w;
     retryable := retryable w |}.

Definition with_text (t : history -> call -> string) (w : World) : World :=
  {| raises := raises w; truth := truth w; text := t; number := number w;
     setting := setting w; path_join := path_join w;
     max_attempts := max_attempts w;
     retryable := retryable w |}.

(** The data file cannot be read, for a reason other than its absence. *)
Definition permission_denied : exn := Exception "[Errno 13] Permission denied".
Definition unreadable_data : World :=
  with_raises
    (fun _ c => match c with WF_load_data _ _ => Some permission_denied | _ => None end)
    happy.

(** The data file does not exist. *)
Definition file_not_found : exn :=
  Exception "[Errno 2] No such file or directory: '/opt/pye/data/TURBINE_INFO'".
Definition missing_data : World :=
  with_raises
    (fun _ c => match c with WF_load_data _ _ => Some file_not_found | _ => None end)
    happy.

(** ** Trace monitors

    A monitor is a deterministic automaton reading the events of a run; it
    gets stuck on an event it does not allow.  [triple step pre m post]: run
    from any history, [m] appends events that lead the monitor from a state
    in [pre] to a state in [post], where [post] also sees how [m] ended. *)
Section Monitor.
Context {St : Type} (step : St -> event -> option St).

Fixpoint monitor (s : St) (t : history) : option St :=
  match t with
  | [] => Some s
  | ev :: rest =>
      match step s ev with
      | Some s' => monitor s' rest
      | None => None
      end
  end.

Definition triple {A} (pre : St -> Prop) (m : M A)
           (post : outcome A -> St -> Prop) : Prop :=
  forall w h, exists t,
    snd (m w h) = h ++ t /\
    forall s, pre s -> exists s', monitor s t = Some s' /\ post (fst (m w h)) s'.
End Monitor.

(** ** Default data and the warning dialog *)

(** Monitor: no warning dialog at all. *)
Definition step_silent (s : unit) (ev : event) : option unit :=
  if shows_warning ev then None else Some s.

(** Monitor: after the default data set has been created, the very next
    event is a warning dialog.  The state tells whether a dialog is due. *)
Definition is_fallback_warning (ev : event) : bool :=
  match ev_call ev with
  | QMessageBox_warning false title text =>
      String.eqb title "Data Loading Error" && String.eqb text fallback_warning_text
  | _ => false
  end.

Definition step_warned (due : bool) (ev : event) : option bool :=
  if due then (if is_fallback_warning ev then Some false else None)
  else Some (default_data_created ev).

(** The claim on the warning, read on the events of a data bootstrap:
    default data created means a warning dialog shown. *)
Definition warns_when_defaults_used (t : history) : Prop :=
  existsb default_data_created t = true -> existsb shows_warning t = true.

(** ** Resource resolution *)

(** [main] has come to line 121 with these values of [username],
    [GIF_DIRECTORY] and [LOGO_PATH]. *)
Definition reaches_gif_check (w : World) (h0 : history)
           (username : string) (gif_directory logo_path : path) (h : history) : Prop :=
  exists h1 h2 h3,
    logging_init w h0 = (Return username, h1) /\
    data_bootstrap w h1 = (Return tt, h2) /\
    window_icon w h2 = (Return tt, h3) /\
    resource_paths w h3 = (Return (gif_directory, logo_path), h).

(** [main] has come to line 136. *)
Definition reaches_logo_check (w : World) (h0 : history)
           (username : string) (gif_directory logo_path : path) (h : history) : Prop :=
  exists h4,
    reaches_gif_check w h0 username gif_directory logo_path h4 /\
    resolve_gif_directory username gif_directory w h4 = (Return tt, h).

Definition gif_created_events (username : string) (gif_directory : path) : history :=
  [ Returned (Path_is_dir gif_directory);
    Returned (Path_mkdir gif_directory);
    Returned (log_event username "Resource Creation"
                        ("Created missing GIF directory: " +++ gif_directory) info) ].

Definition gif_fatal_events (username : string) (gif_directory : path) (e : exn) : history :=
  [ Returned (Path_is_dir gif_directory);
    Raised (Path_mkdir gif_directory) e;
    Returned (log_event username "Resource Error" (gif_error_text gif_directory) error);
    Returned (log_event username "Resource Error" ("Error: " +++ str e) error);
    Returned (QMessageBox_critical "Resource Error" (gif_dialog_text gif_directory e)) ].

(** Up to the look-up of the icon directory for the fallback logo. *)
Definition logo_missing_events (username : string) (logo_path : path) : history :=
  [ Returned (Path_exists logo_path);
    Returned (log_event username "Resource Warning"
                        ("Logo file not found: " +++ logo_path) warning) ].

Definition is_critical_dialog (ev : event) : bool :=
  match ev_call ev with QMessageBox_critical _ _ => true | _ => false end.

(** The GIF directory is missing and can be created. *)
Definition gif_missing : World :=
  with_truth
    (fun h c => match c with Path_is_dir _ => false | _ => truth happy h c end)
    happy.

(** The GIF directory is missing and cannot be created. *)
Definition read_only_fs : exn := Exception "[Errno 30] Read-only file system".
Definition gif_uncreatable : World :=
  with_raises
    (fun _ c => match c with Path_mkdir _ => Some read_only_fs | _ => None end)
    gif_missing.

(** The splash logo is missing, the fallback logo is there. *)
Definition logo_missing : World :=
  with_truth
    (fun h c =>
       match c with
       | Path_exists p => negb (String.eqb p "/opt/pye/ICONS_DIR/splash_icon.svg")
       | _ => truth happy h c
       end)
    happy.

(** Neither logo is there. *)
Definition no_logo : World :=
  with_truth
    (fun h c => match c with Path_exists _ => false | _ => truth happy h c end)
    happy.

(** The icons are kept in the root directory, and the logo is absent. *)
Definition icons_at_root : World :=
  with_text
    (fun h c =>
       match c with
       | config_get_path "ICONS_DIR" => "/"
       | _ => text happy h c
       end)
    (with_truth
       (fun h c =>
          match c with
          | Path_exists p => negb (String.eqb p "/splash_icon.svg")
          | _ => truth happy h c
          end)
       happy).

(** ** The deferred activation handler *)

(** The updates that task 4 pushes to the views. *)
Definition is_view_update (c : call) : bool :=
  match c with
  | dashboard_update_dashboard _ | hasattr_import_raw_data_page
  | import_page_update_park_name _ | title_bar_update_selected_park _ => true
  | _ => false
  end.

Definition views_ok (w : World) : Prop :=
  forall h c, is_view_update c = true -> raises w h c = None.

(** What task 4 records after reading the selected park, when the views
    accept the updates. *)
Definition park_update_events (w : World) (h : history) (park : string) : history :=
  [ Returned (dashboard_update_dashboard park);
    Returned hasattr_import_raw_data_page ]
  ++ (if truth w (h ++ [Returned combo_box_currentText;
                        Returned (dashboard_update_dashboard park)])
               hasattr_import_raw_data_page
      then [Returned (import_page_update_park_name park)]
      else [])
  ++ [ Returned (title_bar_update_selected_park park) ].

Definition is_error_log (ev : event) : bool :=
  match ev_call ev with log_event _ _ _ error => true | _ => false end.

(** Collaborators whose behaviour does not depend on what happened
    before. *)
Definition stateless (w : World) : Prop :=
  forall h h' c,
    raises w h c = raises w h' c /\
    truth w h c = truth w h' c /\
    text w h c = text w h' c.

(** [m] behaves the same from every history. *)
Definition steady {A} (w : World) (m : M A) : Prop :=
  forall h h', exists r t, m w h = (r, h ++ t) /\ m w h' = (r, h' ++ t).

(** The isolation claim read on the whole handler: nothing that a task
    raises leaves [on_splash_closed], and the last task is reached. *)
Definition every_task_isolated (w : World) (h : history) : Prop :=
  (forall e, fst (on_splash_closed w h) <> Raise e) /\
  (exists ev, In ev (snd (on_splash_closed w h)) /\
              ev_call ev = WF_monitor_memory_usage).

(** The main window cannot be shown. *)
Definition cannot_show : exn := Exception "wrapped C/C++ object has been deleted".
Definition window_unshowable : World :=
  with_raises
    (fun _ c => match c with window_show => Some cannot_show | _ => None end)
    happy.

(** The update check fails. *)
Definition no_network : exn := Exception "Network is unreachable".
Definition update_check_fails : World :=
  with_raises
    (fun _ c => match c with window_check_for_updates => Some no_network | _ => None end)
    happy.

(** No park is selected. *)
Definition no_park : World :=
  with_text
    (fun h c => match c with combo_box_currentText => "" | _ => text happy h c end)
    happy.

(** ** The stages of the startup sequence *)

Inductive StartupStage :=
  | LoggingInit
  | DataBootstrap
  | ResourceResolution
  | AuthInit
  | WindowConstruction
  | LoadingScreenDisplay
  | DeferredActivation.

(** Position in the sequence.  Position 7 is kept for the completion
    signal of the loading screen, which comes between the display of the
    loading screen and the deferred activation. *)
Definition stage_index (s : StartupStage) : nat :=
  match s with
  | LoggingInit => 1
  | DataBootstrap => 2
  | ResourceResolution => 3
  | AuthInit => 4
  | WindowConstruction => 5
  | LoadingScreenDisplay => 6
  | DeferredActivation => 8
  end.

Definition signal_index : nat := 7.

Definition category_stage (category : string) : option StartupStage :=
  if (String.eqb category "Data Loading Error" || String.eqb category "Data Creation"
      || String.eqb category "Data Loading Fallback")%bool
  then Some DataBootstrap
  else if (String.eqb category "Resource Creation" || String.eqb category "Resource Error"
           || String.eqb category "Resource Warning"
           || String.eqb category "Resource Fallback")%bool
  then Some ResourceResolution
  else if (String.eqb category "Update Check Error"
           || String.eqb category "Dashboard Initialization Error"
           || String.eqb category "Memory Monitoring Error")%bool
  then Some DeferredActivation
  else None.

(** The stage in which [main.py] makes a call.  The look-up of the operator
    identity is made in several stages and so are entering the event loop
    and the records of the critical error boundary: they carry no stage. *)
Definition stage_of (c : call) : option StartupStage :=
  match c with
  | QApplication_new | LogBook_new (Some _) => Some LoggingInit
  | config_get_path key =>
      if String.eqb key "LOG_FILE" then Some LoggingInit else Some ResourceResolution
  | config_get_data_file_path _ | LogBook_new None
  | WF_load_data _ _ | WF_create_default_data
  | retry_log_failure _ _ | retry_wait _
  | QMessageBox_warning false _ _ => Some DataBootstrap
  | log_event _ category _ _ => category_stage category
  | app_setWindowIcon _ | Path_is_dir _ | Path_mkdir _ | Path_exists _
  | QMessageBox_critical _ _ => Some ResourceResolution
  | AuthService_new => Some AuthInit
  | MainWindow_new => Some WindowConstruction
  | config_get_setting _ _ | SplashScreen_new _ _ _ _ _ _ | splash_show
  | splash_closed_connect => Some LoadingScreenDisplay
  | hasattr_set_auth_service | window_set_auth_service | window_show
  | window_check_for_updates | combo_box_currentText
  | dashboard_update_dashboard _ | hasattr_import_raw_data_page
  | import_page_update_park_name _ | title_bar_update_selected_park _
  | WF_monitor_memory_usage | QMessageBox_warning true _ _
  | slot_exception_reported _ => Some DeferredActivation
  | get_username_from_path | app_exec | splash_closed_emitted
  | boundary_log _ | boundary_dialog => None
  end.

Definition phase_of (ev : event) : option nat :=
  match ev_call ev with
  | splash_closed_emitted => Some signal_index
  | c => option_map stage_index (stage_of c)
  end.

(** Monitor of the stage order: the position never decreases, and the
    deferred activation is entered only once the loading screen has
    signalled completion. *)
Definition step_stage (cur : nat) (ev : event) : option nat :=
  match phase_of ev with
  | None => Some cur
  | Some p =>
      if Nat.leb cur p && (negb (Nat.eqb p (stage_index DeferredActivation))
                           || Nat.leb signal_index cur)
      then Some p
      else None
  end.

(** The part of [main] that precedes a stage. *)
Definition stages_before (s : StartupStage) : M unit :=
  match s with
  | LoggingInit => ret tt
  | DataBootstrap =>
      username <- logging_init ;;
      ret tt
  | ResourceResolution =>
      username <- logging_init ;;
      data_bootstrap ;;
      ret tt
  | AuthInit =>
      username <- logging_init ;;
      data_bootstrap ;;
      window_icon ;;
      paths <- resource_paths ;;
      resolve_gif_directory username (fst paths) ;;
      logo_path <- resolve_logo username (snd paths) ;;
      ret tt
  | WindowConstruction =>
      username <- logging_init ;;
      data_bootstrap ;;
      window_icon ;;
      paths <- resource_paths ;;
      resolve_gif_directory username (fst paths) ;;
      logo_path <- resolve_logo username (snd paths) ;;
      auth_init ;;
      ret tt
  | LoadingScreenDisplay =>
      username <- logging_init ;;
      data_bootstrap ;;
      window_icon ;;
      paths <- resource_paths ;;
      resolve_gif_directory username (fst paths) ;;
      logo_path <- resolve_logo username (snd paths) ;;
      auth_init ;;
      window_construction ;;
      ret tt
  | DeferredActivation =>
      username <- logging_init ;;
      data_bootstrap ;;
      window_icon ;;
      paths <- resource_paths ;;
      resolve_gif_directory username (fst paths) ;;
      logo_path <- resolve_logo username (snd paths) ;;
      auth_init ;;
      window_construction ;;
      loading_screen_display (fst paths) logo_path ;;
      ext_unit splash_closed_connect ;;
      ret tt
  end.

(** Monitor that accepts every event. *)
Definition step_any (s : unit) (ev : event) : option unit := Some s.

(** [p] is an initial part of [m]: where [p] stops, [m] stops; where [p]
    returns, [m] goes on from there. *)
Definition initial_part {B} (p : M unit) (m : M B) : Prop :=
  forall w h,
    match p w h with
    | (Return _, h') => exists rest, snd (m w h) = h' ++ rest
    | (_, h') => snd (m w h) = h'
    end.

(* ================================================================== *)
(** * Further properties of [main.py]: vocabulary *)
(* ================================================================== *)

(** The creation of the default data set does not fail. *)
Definition default_data_ok (w : World) : Prop :=
  forall h, raises w h WF_create_default_data = None.

(** What [load_data] answers, given what
    [WindFarmDataManager.load_data] did. *)
Definition load_verdict (raised : option exn) : bool :=
  match raised with
  | None => true
  | Some e => contains "No such file or directory" (str e)
  end.

(** A log entry or a dialog of [create_empty_data_fallback]. *)
Definition is_fallback_event (ev : event) : bool :=
  match ev_call ev with
  | log_event _ category _ _ => String.eqb category "Data Loading Fallback"
  | QMessageBox_warning _ _ _ => true
  | _ => false
  end.

(** Monitor: nothing of [create_empty_data_fallback] is recorded. *)
Definition step_no_fallback (s : unit) (ev : event) : option unit :=
  if is_fallback_event ev then None else Some s.

(** What one successful run of the fallback records. *)
Definition fallback_events (user : string) : history :=
  [ Returned (LogBook_new None);
    Returned get_username_from_path;
    Returned (log_event user "Data Loading Fallback"
                        "Creating empty default data to allow application to start"
                        warning);
    Returned WF_create_default_data;
    Returned (QMessageBox_warning false "Data Loading Error" fallback_warning_text) ].

(** What [load_data] records when the data file is missing and the
    creation of the default data raises [e']. *)
Definition failed_default_events (user : string) (load : call) (e e' : exn) : history :=
  [ Returned (LogBook_new None);
    Returned get_username_from_path;
    Raised load e;
    Returned (log_event user "Data Loading Error" ("Error loading data: " +++ str e) error);
    Returned (log_event user "Data Creation" "Creating default data file..." info);
    Raised WF_create_default_data e' ].

(** The default data cannot be created inside [load_data]; nothing is
    retried.  The creation works once the fallback has logged its
    entry. *)
Definition disk_full : exn := Exception "[Errno 28] No space left on device".
Definition default_data_late : World :=
  {| raises := fun h c =>
       match c with
       | WF_load_data _ _ => Some file_not_found
       | WF_create_default_data =>
           if existsb is_fallback_event h then None else Some disk_full
       | _ => None
       end;
     truth := truth happy; text := text happy; number := number happy;
     setting := setting happy; path_join := path_join happy;
     max_attempts := 3;
     retryable := fun _ => false |}.

(** What the check of the GIF directory records when the directory is
    created and the log entry about it cannot be written. *)
Definition gif_unlogged_events (username : string) (gif_directory : path) (e : exn)
  : history :=
  [ Returned (Path_is_dir gif_directory);
    Returned (Path_mkdir gif_directory);
    Raised (log_event username "Resource Creation"
                      ("Created missing GIF directory: " +++ gif_directory) info) e;
    Returned (log_event username "Resource Error" (gif_error_text gif_directory) error);
    Returned (log_event username "Resource Error" ("Error: " +++ str e) error);
    Returned (QMessageBox_critical "Resource Error" (gif_dialog_text gif_directory e)) ].

(** The GIF directory is created, but the log book refuses the entry
    about it. *)
Definition log_refused : exn := Exception "log file is locked".
Definition creation_unlogged : World :=
  {| raises := fun _ c =>
       match c with
       | log_event _ "Resource Creation" _ _ => Some log_refused
       | _ => None
       end;
     truth := truth gif_missing; text := text happy; number := number happy;
     setting := setting happy; path_join := path_join happy;
     max_attempts := 3;
     retryable := fun _ => true |}.

(** The report of task 4 about a failed update. *)
Definition dashboard_failure_events (user : string) (e : exn) : history :=
  [ Returned get_username_from_path;
    Returned (log_event user "Dashboard Initialization Error"
                        ("Error initializing dashboard: " +++ str e) error);
    Returned (QMessageBox_warning true "Dashboard Error" dashboard_warning_text) ].

(** The report of task 5 about a failed memory probe. *)
Definition memory_failure_events (user : string) (e : exn) : history :=
  [ Raised WF_monitor_memory_usage e;
    Returned get_username_from_path;
    Returned (log_event user "Memory Monitoring Error"
                        ("Error monitoring memory usage: " +++ str e) warning) ].

(** What the activation handler may call: the window and its views, the
    memory probe, its own log entries and its own warning dialog. *)
Definition in_handler_scope (ev : event) : bool :=
  match ev_call ev with
  | get_username_from_path => true
  | c => match stage_of c with Some DeferredActivation => true | _ => false end
  end.

Definition step_handler_scope (s : unit) (ev : event) : option unit :=
  if in_handler_scope ev then Some s else None.

(** The dashboard refuses the update. *)
Definition no_such_park : exn := Exception "'Park A'".
Definition dashboard_broken : World :=
  with_raises
    (fun _ c => match c with dashboard_update_dashboard _ => Some no_such_park | _ => None end)
    happy.

(** The memory probe fails. *)
Definition no_psutil : exn := Exception "No module named 'psutil'".
Definition memory_probe_fails : World :=
  with_raises
    (fun _ c => match c with WF_monitor_memory_usage => Some no_psutil | _ => None end)
    happy.

(** The window has no [set_auth_service]. *)
Definition plain_window : World :=
  with_truth
    (fun h c => match c with hasattr_set_auth_service => false | _ => truth happy h c end)
    happy.

(** ** How [main] ends *)

(** [m] has no run that returns normally. *)
Definition never_returns {A} (m : M A) : Prop :=
  forall w h a, fst (m w h) <> Return a.

(** Monitor: once a critical dialog has returned, nothing more is
    recorded.  The state tells whether one has returned. *)
Definition critical_returned (ev : event) : bool :=
  match ev with Returned (QMessageBox_critical _ _) => true | _ => false end.

Definition step_critical (seen : bool) (ev : event) : option bool :=
  if seen then None else Some (critical_returned ev).

(** After a critical dialog the outcome is [SystemExit 1]. *)
Definition critical_end {A} (r : outcome A) (seen : bool) : Prop :=
  match r with
  | SystemExit code => seen = false \/ code = 1%Z
  | _ => seen = false
  end.

(** ** A start without incident *)

(** No collaborator raises, the resources are in place, and the loading
    screen signals its completion. *)
Definition all_well (w : World) : Prop :=
  (forall h c, raises w h c = None) /\
  (forall h p, truth w h (Path_is_dir p) = true) /\
  (forall h p, truth w h (Path_exists p) = true) /\
  (forall h, truth w h splash_closed_emitted = true).

(** A log entry or a dialog. *)
Definition is_report (ev : event) : bool :=
  match ev_call ev with
  | log_event _ _ _ _ | QMessageBox_warning _ _ _ | QMessageBox_critical _ _
  | retry_log_failure _ _ | boundary_log _ | boundary_dialog
  | slot_exception_reported _ => true
  | _ => false
  end.

(** In world [w], [m] returns from every history, with a value in [Q],
    without recording a log entry or a dialog, and records the events
    [must] on the way. *)
Definition smooth (w : World) {A} (m : M A) (Q : A -> Prop) (must : history) : Prop :=
  forall h, exists a t,
    m w h = (Return a, h ++ t) /\
    Q a /\
    existsb is_report t = false /\
    incl must t.

(** In world [w], [m] ends the process with the status of [app.exec()],
    equally without a log entry or a dialog. *)
Definition exits_smoothly (w : World) (m : M unit) (must : history) : Prop :=
  forall h, exists t,
    m w h = (SystemExit (number w (h ++ t) app_exec), h ++ t) /\
    existsb is_report t = false /\
    incl must t.

(* ================================================================== *)
(** * Running the monad, one step at a time *)
(* ================================================================== *)

Section Steps.
Context {A B : Type}.
Variables (w : World) (h : history).

Lemma bind_ext_returns (answer : World -> history -> call -> A) c (k : A -> M B) :
  raises w h c = None ->
  bind (ext answer c) k w h = k (answer w h c) w (h ++ [Returned c]).
Proof. intros H. unfold bind, ext. now rewrite H. Qed.

Lemma bind_ext_raises (answer : World -> history -> call -> A) c (k : A -> M B) e :
  raises w h c = Some e ->
  bind (ext answer c) k w h = (Raise e, h ++ [Raised c e]).
Proof. intros H. unfold bind, ext. now rewrite H. Qed.

Lemma ext_returns (answer : World -> history -> call -> A) c :
  raises w h c = None ->
  ext answer c w h = (Return (answer w h c), h ++ [Returned c]).
Proof. intros H. unfold ext. now rewrite H. Qed.

Lemma ext_raises (answer : World -> history -> call -> A) c e :
  raises w h c = Some e ->
  ext answer c w h = (Raise e, h ++ [Raised c e]).
Proof. intros H. unfold ext. now rewrite H. Qed.

Lemma bind_returns (m : M A) (k : A -> M B) a h' :
  m w h = (Return a, h') -> bind m k w h = k a w h'.
Proof. intros H. unfold bind. now rewrite H. Qed.

Lemma bind_raises (m : M A) (k : A -> M B) e h' :
  m w h = (Raise e, h') -> bind m k w h = (Raise e, h').
Proof. intros H. unfold bind. now rewrite H. Qed.

Lemma bind_exits (m : M A) (k : A -> M B) c h' :
  m w h = (SystemExit c, h') -> bind m k w h = (SystemExit c, h').
Proof. intros H. unfold bind. now rewrite H. Qed.
End Steps.

Lemma bind_ret {A B} (a : A) (k : A -> M B) w h : bind (ret a) k w h = k a w h.
Proof. reflexivity. Qed.

Lemma bind_joinpath {B} p name (k : path -> M B) w h :
  bind (joinpath p name) k w h = k (path_join w p name) w h.
Proof. reflexivity. Qed.

Lemma bind_emit {B} c (k : unit -> M B) w h :
  bind (emit c) k w h = k tt w (h ++ [Returned c]).
Proof. reflexivity. Qed.

(** Histories are kept in the form [h ++ [ev1; ...; evn]]. *)
Ltac flat := repeat rewrite <- app_assoc; cbn [app].

Ltac open_calls := unfold ext_unit, ext_bool, ext_text, ext_setting in *.

(** One collaborator call that returns, justified by [tac]. *)
Ltac call_ok tac :=
  first [ rewrite bind_ext_returns by tac | rewrite ext_returns by tac ];
  cbv beta zeta; flat.

Ltac call_fails H :=
  first [ rewrite (bind_ext_raises _ _ _ _ _ _ H) | rewrite (ext_raises _ _ _ _ _ H) ];
  cbv beta zeta; flat.

Ltac by_sink Hsink := solve [ assumption | apply Hsink; reflexivity ].

(** A policy with at least one attempt runs the operation; an attempt that
    does not raise ends the loop. *)
Lemma retry_first_attempt_settles {A} (op : M A) w h r h' :
  0 < max_attempts w ->
  op w h = (r, h') ->
  (forall e, r <> Raise e) ->
  file_operation_retry op w h = (r, h') /\ attempts_made op w h = [r].
Proof.
  intros Hn Hop Hr. unfold file_operation_retry, attempts_made.
  destruct (max_attempts w) as [|n]; [lia|].
  cbn [retry_loop]. rewrite Hop.
  destruct r as [a|e|c]; [now split | now elim (Hr e) | now split].
Qed.

(* ================================================================== *)
(** * Data bootstrap *)
(* ================================================================== *)

Lemma load_data_body_missing_file w h data_path chunk_size e :
  sink_ok w ->
  let user := text w (h ++ [Returned (LogBook_new None)]) get_username_from_path in
  let load := load_call data_path chunk_size in
  raises w (h ++ [Returned (LogBook_new None); Returned get_username_from_path]) load
    = Some e ->
  contains "No such file or directory" (str e) = true ->
  raises w (h ++ removelast (missing_file_events user load e)) WF_create_default_data
    = None ->
  load_data_body data_path chunk_size w h
    = (Return true, h ++ missing_file_events user load e).
Proof.
  intros Hsink user load Hload Hmsg Hcreate.
  unfold load_data_body. open_calls.
  call_ok ltac:(by_sink Hsink). call_ok ltac:(by_sink Hsink).
  fold user. unfold try_except.
  assert (Hbody :
    ((if truthy_chunk chunk_size
      then ext (fun _ _ _ => tt) (WF_load_data data_path chunk_size)
      else ext (fun _ _ _ => tt) (WF_load_data data_path None)) ;; ret true) w
      (h ++ [Returned (LogBook_new None); Returned get_username_from_path])
    = (Raise e, h ++ [Returned (LogBook_new None); Returned get_username_from_path;
                      Raised load e])).
  { unfold load, load_call in *.
    destruct (truthy_chunk chunk_size); call_fails Hload; reflexivity. }
  rewrite Hbody.
  call_ok ltac:(by_sink Hsink). rewrite Hmsg.
  call_ok ltac:(by_sink Hsink).
  cbn [missing_file_events removelast] in Hcreate.
  call_ok ltac:(exact Hcreate).
  reflexivity.
Qed.

Lemma sink_ok_missing_data : sink_ok missing_data.
Proof. intros h c Hc. destruct c; try discriminate Hc; reflexivity. Qed.

(** C2.  When the data file does not exist (the load fails with a message
    containing "No such file or directory"), [load_data] logs one
    error-level event, then the info-level event "Creating default data
    file...", calls [WindFarmDataManager.create_default_data] and returns
    [True] after a single attempt; the data bootstrap then returns normally
    and [main] goes on with the stage that follows it.  Assumed of the
    collaborators: reporting and the creation of the default data do not
    fail, and the retry policy allows an attempt. *)
Theorem load_data_missing_file_creates_default (w : World) :
  0 < max_attempts w ->
  sink_ok w ->
  (forall h data_path chunk_size e,
      let user := text w (h ++ [Returned (LogBook_new None)]) get_username_from_path in
      let load := load_call data_path chunk_size in
      raises w (h ++ [Returned (LogBook_new None); Returned get_username_from_path]) load
        = Some e ->
      contains "No such file or directory" (str e) = true ->
      raises w (h ++ removelast (missing_file_events user load e)) WF_create_default_data
        = None ->
      load_data data_path chunk_size w h
        = (Return true, h ++ missing_file_events user load e)
      /\ attempts_made (load_data_body data_path chunk_size) w h = [Return true])
  /\
  (forall h0 h1 username e,
      logging_init w h0 = (Return username, h1) ->
      raises w h1 (config_get_data_file_path "TURBINE_INFO") = None ->
      let data_path := text w h1 (config_get_data_file_path "TURBINE_INFO") in
      let h := h1 ++ [Returned (config_get_data_file_path "TURBINE_INFO")] in
      let user := text w (h ++ [Returned (LogBook_new None)]) get_username_from_path in
      let load := WF_load_data data_path None in
      raises w (h ++ [Returned (LogBook_new None); Returned get_username_from_path]) load
        = Some e ->
      contains "No such file or directory" (str e) = true ->
      raises w (h ++ removelast (missing_file_events user load e)) WF_create_default_data
        = None ->
      data_bootstrap w h1 = (Return tt, h ++ missing_file_events user load e)
      /\ main_body w h0
         = resources_onward username w (h ++ missing_file_events user load e)).
Proof.
  intros Hn Hsink. split.
  - intros h data_path chunk_size e user load Hload Hmsg Hcreate.
    apply retry_first_attempt_settles; [exact Hn | | discriminate].
    now apply load_data_body_missing_file.
  - intros h0 h1 username e Hinit Hpath data_path h user load Hload Hmsg Hcreate.
    assert (Hboot : data_bootstrap w h1
                    = (Return tt, h ++ missing_file_events user load e)).
    { unfold data_bootstrap. open_calls. call_ok ltac:(exact Hpath).
      fold data_path. unfold try_except, load_data.
      destruct (retry_first_attempt_settles (load_data_body data_path None) w h
                  (Return true) (h ++ missing_file_events user load e) Hn)
        as [Hrun _].
      + now apply (load_data_body_missing_file w h data_path None e).
      + discriminate.
      + fold h. rewrite (bind_returns _ _ _ _ _ _ Hrun). reflexivity. }
    split; [exact Hboot|].
    unfold main_body.
    rewrite (bind_returns _ _ _ _ _ _ Hinit).
    rewrite (bind_returns _ _ _ _ _ _ Hboot). reflexivity.
Qed.

Lemma load_data_missing_file_creates_default_witness :
  load_data "/opt/pye/data/TURBINE_INFO" None missing_data []
  = (Return true,
     missing_file_events "pierre" (WF_load_data "/opt/pye/data/TURBINE_INFO" None)
                         file_not_found)
  /\ attempts_made (load_data_body "/opt/pye/data/TURBINE_INFO" None) missing_data []
     = [Return true].
Proof.
  destruct (load_data_missing_file_creates_default missing_data) as [Hload _].
  - simpl. lia.
  - exact sink_ok_missing_data.
  - apply (Hload [] "/opt/pye/data/TURBINE_INFO" None file_not_found); reflexivity.
Defined.

(** A load failure other than a missing file: [load_data] logs it and
    returns [False]; no exception reaches the retry wrapper. *)
Lemma load_data_other_failure w h data_path chunk_size e :
  0 < max_attempts w ->
  sink_ok w ->
  let user := text w (h ++ [Returned (LogBook_new None)]) get_username_from_path in
  let load := load_call data_path chunk_size in
  raises w (h ++ [Returned (LogBook_new None); Returned get_username_from_path]) load
    = Some e ->
  contains "No such file or directory" (str e) = false ->
  load_data data_path chunk_size w h
  = (Return false,
     h ++ [Returned (LogBook_new None); Returned get_username_from_path; Raised load e;
           Returned (log_event user "Data Loading Error"
                               ("Error loading data: " +++ str e) error)])
  /\ attempts_made (load_data_body data_path chunk_size) w h = [Return false].
Proof.
  intros Hn Hsink user load Hload Hmsg.
  apply retry_first_attempt_settles; [exact Hn | | discriminate].
  unfold load_data_body. open_calls.
  call_ok ltac:(by_sink Hsink). call_ok ltac:(by_sink Hsink).
  fold user. unfold try_except.
  assert (Hbody :
    ((if truthy_chunk chunk_size
      then ext (fun _ _ _ => tt) (WF_load_data data_path chunk_size)
      else ext (fun _ _ _ => tt) (WF_load_data data_path None)) ;; ret true) w
      (h ++ [Returned (LogBook_new None); Returned get_username_from_path])
    = (Raise e, h ++ [Returned (LogBook_new None); Returned get_username_from_path;
                      Raised load e])).
  { unfold load, load_call in *.
    destruct (truthy_chunk chunk_size); call_fails Hload; reflexivity. }
  rewrite Hbody.
  call_ok ltac:(by_sink Hsink). rewrite Hmsg. reflexivity.
Qed.

(** C1 (the code departs from the claim).  The data file exists but cannot
    be read ("Permission denied").  [load_data] logs the failure and
    returns [False]; nothing is raised, so the [except] clause of [main]
    that calls [create_empty_data_fallback] is not entered: the data
    bootstrap ends without a single call of [create_default_data], and
    [main] runs to the end without a data set. *)
Theorem unreadable_data_leaves_model_uninitialized :
  contains "No such file or directory" (str permission_denied) = false
  /\ data_bootstrap unreadable_data []
     = (Return tt,
        [ Returned (config_get_data_file_path "TURBINE_INFO");
          Returned (LogBook_new None);
          Returned get_username_from_path;
          Raised (WF_load_data "/opt/pye/data/TURBINE_INFO" None) permission_denied;
          Returned (log_event "pierre" "Data Loading Error"
                      "Error loading data: [Errno 13] Permission denied" error) ])
  /\ existsb default_data_created (snd (main unreadable_data [])) = false
  /\ existsb (fun ev => match ev_call ev with WF_create_default_data => true | _ => false end)
             (snd (main unreadable_data [])) = false
  /\ fst (main unreadable_data []) = SystemExit 0%Z.
Proof. repeat split; vm_compute; reflexivity. Qed.

(* ================================================================== *)
(** * Proof rules for trace monitors *)
(* ================================================================== *)

Section MonitorRules.
Context {St : Type} (step : St -> event -> option St).

Lemma monitor_app s t1 t2 :
  monitor step s (t1 ++ t2)
  = match monitor step s t1 with
    | Some s' => monitor step s' t2
    | None => None
    end.
Proof.
  revert s. induction t1 as [|ev t1 IH]; intros s; cbn; [reflexivity|].
  destruct (step s ev); [apply IH | reflexivity].
Qed.

Lemma triple_conseq {A} (pre pre' : St -> Prop) (m : M A)
      (post post' : outcome A -> St -> Prop) :
  triple step pre m post ->
  (forall s, pre' s -> pre s) ->
  (forall r s, post r s -> post' r s) ->
  triple step pre' m post'.
Proof.
  intros Hm Hpre Hpost w h. destruct (Hm w h) as (t & Ht & Hrun).
  exists t. split; [exact Ht|]. intros s Hs.
  destruct (Hrun s (Hpre s Hs)) as (s' & Hs' & Hp). eauto.
Qed.

Lemma triple_ret {A} (a : A) (pre : St -> Prop) (post : outcome A -> St -> Prop) :
  (forall s, pre s -> post (Return a) s) ->
  triple step pre (ret a) post.
Proof.
  intros H w h. exists []. split; [cbn; now rewrite app_nil_r|].
  intros s Hs. exists s. split; [reflexivity | now apply H].
Qed.

Lemma triple_sys_exit {A} code (pre : St -> Prop) (post : outcome A -> St -> Prop) :
  (forall s, pre s -> post (SystemExit code) s) ->
  triple step pre (sys_exit code) post.
Proof.
  intros H w h. exists []. split; [cbn; now rewrite app_nil_r|].
  intros s Hs. exists s. split; [reflexivity | now apply H].
Qed.

(** A computation that records nothing. *)
Lemma triple_silent {A} (m : M A) (pre : St -> Prop) (post : outcome A -> St -> Prop) :
  (forall w h, snd (m w h) = h) ->
  (forall r s, pre s -> post r s) ->
  triple step pre m post.
Proof.
  intros Hm H w h. exists []. split; [rewrite app_nil_r; apply Hm|].
  intros s Hs. exists s. split; [reflexivity | now apply H].
Qed.

Lemma triple_ext {A} (answer : World -> history -> call -> A) c
      (pre : St -> Prop) (post : outcome A -> St -> Prop) :
  (forall s a, pre s ->
               exists s', step s (Returned c) = Some s' /\ post (Return a) s') ->
  (forall s e, pre s ->
               exists s', step s (Raised c e) = Some s' /\ post (Raise e) s') ->
  triple step pre (ext answer c) post.
Proof.
  intros Hret Hraise w h. unfold ext.
  destruct (raises w h c) as [e|].
  - exists [Raised c e]. split; [reflexivity|]. intros s Hs.
    destruct (Hraise s e Hs) as (s' & Hstep & Hp).
    exists s'. cbn. now rewrite Hstep.
  - exists [Returned c]. split; [reflexivity|]. intros s Hs.
    destruct (Hret s (answer w h c) Hs) as (s' & Hstep & Hp).
    exists s'. cbn. now rewrite Hstep.
Qed.

Lemma triple_emit c (pre : St -> Prop) (post : outcome unit -> St -> Prop) :
  (forall s, pre s ->
             exists s', step s (Returned c) = Some s' /\ post (Return tt) s') ->
  triple step pre (emit c) post.
Proof.
  intros Hret w h. exists [Returned c]. split; [reflexivity|]. intros s Hs.
  destruct (Hret s Hs) as (s' & Hstep & Hp). exists s'. cbn. now rewrite Hstep.
Qed.

Lemma triple_bind {A B} (m : M A) (k : A -> M B) (pre : St -> Prop)
      (mid : outcome A -> St -> Prop) (post : outcome B -> St -> Prop) :
  triple step pre m mid ->
  (forall a, triple step (mid (Return a)) (k a) post) ->
  (forall e s, mid (Raise e) s -> post (Raise e) s) ->
  (forall c s, mid (SystemExit c) s -> post (SystemExit c) s) ->
  triple step pre (bind m k) post.
Proof.
  intros Hm Hk Hraise Hexit w h. unfold bind.
  destruct (Hm w h) as (t1 & Ht1 & Hrun1).
  destruct (m w h) as [[a|e|c] h1]; cbn [fst snd] in *; subst h1.
  - destruct (Hk a w (h ++ t1)) as (t2 & Ht2 & Hrun2).
    exists (t1 ++ t2). split; [now rewrite Ht2, app_assoc|].
    intros s Hs. destruct (Hrun1 s Hs) as (s1 & Hs1 & Hmid).
    destruct (Hrun2 s1 Hmid) as (s2 & Hs2 & Hpost).
    exists s2. rewrite monitor_app, Hs1. now split.
  - exists t1. split; [reflexivity|]. intros s Hs.
    destruct (Hrun1 s Hs) as (s1 & Hs1 & Hmid). eauto.
  - exists t1. split; [reflexivity|]. intros s Hs.
    destruct (Hrun1 s Hs) as (s1 & Hs1 & Hmid). eauto.
Qed.

Lemma triple_try {A} (body : M A) (handler : exn -> M A) (pre : St -> Prop)
      (mid post : outcome A -> St -> Prop) :
  triple step pre body mid ->
  (forall e, triple step (mid (Raise e)) (handler e) post) ->
  (forall a s, mid (Return a) s -> post (Return a) s) ->
  (forall c s, mid (SystemExit c) s -> post (SystemExit c) s) ->
  triple step pre (try_except body handler) post.
Proof.
  intros Hm Hk Hreturn Hexit w h. unfold try_except.
  destruct (Hm w h) as (t1 & Ht1 & Hrun1).
  destruct (body w h) as [[a|e|c] h1]; cbn [fst snd] in *; subst h1.
  - exists t1. split; [reflexivity|]. intros s Hs.
    destruct (Hrun1 s Hs) as (s1 & Hs1 & Hmid). eauto.
  - destruct (Hk e w (h ++ t1)) as (t2 & Ht2 & Hrun2).
    exists (t1 ++ t2). split; [now rewrite Ht2, app_assoc|].
    intros s Hs. destruct (Hrun1 s Hs) as (s1 & Hs1 & Hmid).
    destruct (Hrun2 s1 Hmid) as (s2 & Hs2 & Hpost).
    exists s2. rewrite monitor_app, Hs1. now split.
  - exists t1. split; [reflexivity|]. intros s Hs.
    destruct (Hrun1 s Hs) as (s1 & Hs1 & Hmid). eauto.
Qed.

Lemma triple_if {A} (b : bool) (m1 m2 : M A) pre post :
  triple step pre m1 post -> triple step pre m2 post ->
  triple step pre (if b then m1 else m2) post.
Proof. now destruct b. Qed.

(** A branch taken on an answer of the world. *)
Lemma triple_branch {A} (b : World -> history -> bool) (m1 m2 : M A) pre post :
  triple step pre m1 post -> triple step pre m2 post ->
  triple step pre (fun w h => if b w h then m1 w h else m2 w h) post.
Proof. intros H1 H2 w h. destruct (b w h); [apply H1 | apply H2]. Qed.

(** The retry executor keeps an invariant that every attempt keeps and
    that its own records keep. *)
Lemma triple_retry {A} (op : M A) (inv : St -> Prop) :
  triple step inv op (fun _ => inv) ->
  (forall s attempt e, inv s ->
     exists s', step s (Returned (retry_log_failure attempt e)) = Some s' /\ inv s') ->
  (forall s attempt, inv s ->
     exists s', step s (Returned (retry_wait attempt)) = Some s' /\ inv s') ->
  triple step inv (file_operation_retry op) (fun _ => inv).
Proof.
  intros Hop Hlog Hwait w h. unfold file_operation_retry.
  generalize 1 at 1. generalize (@no_attempt). generalize (max_attempts w).
  intros n. revert h. induction n as [|n IH]; intros h last attempt.
  - exists []. split; [cbn; now rewrite app_nil_r|]. intros s Hs. now exists s.
  - cbn [retry_loop]. destruct (Hop w h) as (t1 & Ht1 & Hrun1).
    destruct (op w h) as [[a|e|c] h1]; cbn [fst snd] in *; subst h1.
    + exists t1. split; [reflexivity|]. exact Hrun1.
    + destruct (retryable w e && negb (Nat.eqb n 0)).
      * match goal with
        | |- context [retry_loop n ?a ?x op w ?hh] =>
            specialize (IH hh x a); destruct (retry_loop n a x op w hh) as [res made]
        end.
        cbn [fst snd] in *. destruct IH as (t2 & Ht2 & Hrun2).
        exists (t1 ++ [Returned (retry_log_failure attempt e);
                       Returned (retry_wait attempt)] ++ t2).
        split.
        { rewrite Ht2. repeat rewrite <- app_assoc. reflexivity. }
        intros s Hs. destruct (Hrun1 s Hs) as (s1 & Hs1 & Hinv1).
        destruct (Hlog s1 attempt e Hinv1) as (s2 & Hs2 & Hinv2).
        destruct (Hwait s2 attempt Hinv2) as (s3 & Hs3 & Hinv3).
        destruct (Hrun2 s3 Hinv3) as (s4 & Hs4 & Hinv4).
        exists s4. rewrite monitor_app, Hs1. cbn. rewrite Hs2, Hs3. now split.
      * exists (t1 ++ [Returned (retry_log_failure attempt e)]).
        cbn [fst snd]. split; [now rewrite app_assoc|].
        intros s Hs. destruct (Hrun1 s Hs) as (s1 & Hs1 & Hinv1).
        destruct (Hlog s1 attempt e Hinv1) as (s2 & Hs2 & Hinv2).
        exists s2. rewrite monitor_app, Hs1. cbn. rewrite Hs2. now split.
    + exists t1. split; [reflexivity|]. exact Hrun1.
Qed.
End MonitorRules.

(* ================================================================== *)
(** * The warning dialog of the data bootstrap *)
(* ================================================================== *)

Lemma step_silent_spec t s s' :
  monitor step_silent s t = Some s' -> existsb shows_warning t = false.
Proof.
  revert s. induction t as [|ev t IH]; intros s H; [reflexivity|].
  cbn in *. unfold step_silent in H at 1.
  destruct (shows_warning ev); [discriminate|]. cbn. eauto.
Qed.

Lemma is_fallback_warning_spec ev :
  is_fallback_warning ev = true ->
  ev_call ev = QMessageBox_warning false "Data Loading Error" fallback_warning_text.
Proof.
  unfold is_fallback_warning.
  destruct (ev_call ev); try discriminate.
  match goal with b : bool |- _ => destruct b; try discriminate end.
  intros H. apply andb_prop in H. destruct H as [H1 H2].
  apply String.eqb_eq in H1, H2. now subst.
Qed.

Lemma step_warned_spec t :
  forall s, monitor step_warned s t = Some false ->
  forall pre ev post,
    t = pre ++ ev :: post ->
    default_data_created ev = true ->
    exists next rest, post = next :: rest /\ is_fallback_warning next = true.
Proof.
  intros s H pre. revert s t H.
  induction pre as [|p pre IH]; intros s t H ev post -> Hev; cbn in H.
  - unfold step_warned in H at 1. destruct s.
    + destruct ev as [[] | ]; try discriminate Hev. discriminate H.
    + rewrite Hev in H. destruct post as [|next rest]; [discriminate H|].
      exists next, rest. split; [reflexivity|].
      cbn in H. unfold step_warned in H at 1.
      destruct (is_fallback_warning next); [reflexivity | discriminate H].
  - destruct (step_warned s p) as [s1|]; [|discriminate H].
    eapply IH; eauto.
Qed.

(** No path through [load_data] shows a dialog. *)
Lemma load_data_silent data_path chunk_size :
  triple step_silent (fun _ => True) (load_data data_path chunk_size)
         (fun _ _ => True).
Proof.
  unfold load_data.
  apply (triple_retry step_silent _ (fun _ => True)); [| cbn; eauto | cbn; eauto].
  unfold load_data_body. open_calls.
  repeat first
    [ apply triple_ret; tauto
    | apply triple_ext; cbn; eauto
    | apply triple_if
    | eapply triple_bind with (mid := fun _ _ => True); [ | intros ? | tauto | tauto ]
    | eapply triple_try with (mid := fun _ _ => True); [ | intros ? | tauto | tauto ] ].
Qed.

(** In one attempt of the fallback a created default data set is followed
    by the dialog. *)
Lemma fallback_attempt_warned :
  triple step_warned (fun due => due = false) create_empty_data_fallback_impl_body
         (fun _ due => due = false).
Proof.
  unfold create_empty_data_fallback_impl_body. open_calls.
  eapply triple_bind with (mid := fun _ due => due = false);
    [ apply triple_ext; intros; subst; cbn; eauto | intros _ | tauto | tauto ].
  eapply triple_bind with (mid := fun _ due => due = false);
    [ apply triple_ext; intros; subst; cbn; eauto | intros user | tauto | tauto ].
  eapply triple_bind with (mid := fun _ due => due = false);
    [ apply triple_ext; intros; subst; cbn; eauto | intros _ | tauto | tauto ].
  eapply triple_bind
    with (mid := fun r due => match r with Return _ => due = true | _ => due = false end);
    [ apply triple_ext; intros; subst; cbn; eauto | intros _ | tauto | tauto ].
  apply triple_ext; intros; subst; cbn; eauto.
Qed.

Lemma create_empty_data_fallback_warned :
  triple step_warned (fun due => due = false) create_empty_data_fallback
         (fun _ due => due = false).
Proof.
  unfold create_empty_data_fallback.
  apply (triple_retry step_warned _ (fun due => due = false)).
  - exact fallback_attempt_warned.
  - intros; subst; cbn; eauto.
  - intros; subst; cbn; eauto.
Qed.

(** C7, as stated, fails where the data file is missing: [load_data]
    creates the default data set and no dialog is shown during the data
    bootstrap. *)
Lemma missing_file_defaults_without_warning :
  ~ warns_when_defaults_used (snd (data_bootstrap missing_data [])).
Proof.
  unfold warns_when_defaults_used. intros H.
  assert (Hshown : existsb shows_warning (snd (data_bootstrap missing_data [])) = true)
    by (apply H; vm_compute; reflexivity).
  vm_compute in Hshown. discriminate Hshown.
Qed.

(** C7, amended.  The warning dialog belongs to
    [create_empty_data_fallback]: in every run of it, each successful
    creation of the default data set is immediately followed by the
    warning dialog.  [load_data], whose file-not-found branch also creates
    the default data set, never shows a dialog. *)
Theorem warning_dialog_on_fallback_path_only (w : World) (h : history) :
  (exists t,
      snd (create_empty_data_fallback w h) = h ++ t /\
      forall pre ev post,
        t = pre ++ ev :: post ->
        default_data_created ev = true ->
        exists next rest,
          post = next :: rest /\
          ev_call next
          = QMessageBox_warning false "Data Loading Error" fallback_warning_text)
  /\
  (forall data_path chunk_size,
      exists t,
        snd (load_data data_path chunk_size w h) = h ++ t /\
        existsb shows_warning t = false).
Proof.
  split.
  - destruct (create_empty_data_fallback_warned w h) as (t & Ht & Hrun).
    exists t. split; [exact Ht|].
    destruct (Hrun false eq_refl) as (s' & Hs' & ->).
    intros pre ev post Hsplit Hev.
    destruct (step_warned_spec t false Hs' pre ev post Hsplit Hev)
      as (next & rest & -> & Hnext).
    exists next, rest. split; [reflexivity | now apply is_fallback_warning_spec].
  - intros data_path chunk_size.
    destruct (load_data_silent data_path chunk_size w h) as (t & Ht & Hrun).
    exists t. split; [exact Ht|].
    destruct (Hrun tt I) as (s' & Hs' & _).
    exact (step_silent_spec t tt s' Hs').
Qed.

(* ================================================================== *)
(** * The retry executor *)
(* ================================================================== *)

Section RetryFacts.
Context {A : Type} (op : M A) (w : World).

(** Every attempt but the last one failed with a retryable cause, and the
    last attempt decides the result. *)
Lemma retry_loop_attempts n :
  forall attempt last h,
    let res := retry_loop n attempt last op w h in
    List.length (snd res) <= n /\
    (n = 0 -> fst (fst res) = Raise last /\ snd res = []) /\
    (0 < n ->
     exists earlier,
       snd res = earlier ++ [fst (fst res)] /\
       Forall (fun r => exists e, r = Raise e /\ retryable w e = true) earlier).
Proof.
  induction n as [|n IH]; intros attempt last h; cbn [retry_loop].
  - cbn. repeat split; try lia.
  - destruct (op w h) as [[a|e|c] h1].
    + cbn. repeat split; try lia; try discriminate.
      intros _. exists []. now split.
    + destruct (retryable w e && negb (Nat.eqb n 0)) eqn:Hretry.
      * apply andb_prop in Hretry. destruct Hretry as [He Hn].
        apply negb_true_iff, Nat.eqb_neq in Hn.
        match goal with
        | |- context [retry_loop n ?a ?x op w ?hh] =>
            specialize (IH a x hh); destruct (retry_loop n a x op w hh) as [res made]
        end.
        cbn [fst snd] in *. destruct IH as (Hlen & _ & Hlast).
        destruct Hlast as (earlier & -> & Hearlier); [lia|].
        cbn [List.length]. repeat split; try lia; try discriminate.
        intros _. exists (Raise e :: earlier). split; [reflexivity|].
        constructor; eauto.
      * cbn. repeat split; try lia; try discriminate.
        intros _. exists []. now split.
    + cbn. repeat split; try lia; try discriminate.
      intros _. exists []. now split.
Qed.
Lemma retry_loop_nonempty n :
  0 < n -> forall attempt last h, snd (retry_loop n attempt last op w h) <> [].
Proof.
  intros Hn attempt last h.
  destruct (retry_loop_attempts n attempt last h) as (_ & _ & Hpos).
  destruct (Hpos Hn) as (earlier & -> & _). now destruct earlier.
Qed.

(** The list of attempts is the record of the runs of the operation, and
    the history returned is the one these runs leave. *)
Lemma retry_loop_runs n :
  forall attempt last h,
    attempt_runs op w attempt h
                 (snd (retry_loop n attempt last op w h))
                 (snd (fst (retry_loop n attempt last op w h))).
Proof.
  induction n as [|n IH]; intros attempt last h; cbn [retry_loop].
  - reflexivity.
  - destruct (op w h) as [[a|e|c] h1] eqn:Hop.
    + cbn. rewrite Hop. now split.
    + destruct (retryable w e && negb (Nat.eqb n 0)) eqn:Hretry.
      * apply andb_prop in Hretry. destruct Hretry as [_ Hn].
        apply negb_true_iff, Nat.eqb_neq in Hn.
        assert (Hpos : 0 < n) by lia.
        assert (Hmore := retry_loop_nonempty n Hpos (S attempt) e
                           ((h1 ++ [Returned (retry_log_failure attempt e)])
                              ++ [Returned (retry_wait attempt)])).
        specialize (IH (S attempt) e
                       ((h1 ++ [Returned (retry_log_failure attempt e)])
                          ++ [Returned (retry_wait attempt)])).
        destruct (retry_loop n (S attempt) e op w
                    ((h1 ++ [Returned (retry_log_failure attempt e)])
                       ++ [Returned (retry_wait attempt)])) as [res made].
        cbn [fst snd] in *. cbn [attempt_runs]. rewrite Hop. cbn [fst snd].
        split; [reflexivity|].
        destruct made as [|r made]; [now elim Hmore|].
        rewrite <- app_assoc in IH. exact IH.
      * cbn. rewrite Hop. now split.
    + cbn. rewrite Hop. now split.
Qed.

Lemma count_marked_app mark t1 t2 :
  count_marked mark (t1 ++ t2) = count_marked mark t1 + count_marked mark t2.
Proof. unfold count_marked. now rewrite filter_app, length_app. Qed.

(** Each attempt of the loop invokes the operation once. *)
Lemma retry_loop_invocations (mark : event -> bool) (c : call) :
  mark (Returned c) = true ->
  (forall attempt e, mark (Returned (retry_log_failure attempt e)) = false) ->
  (forall attempt, mark (Returned (retry_wait attempt)) = false) ->
  unmarked mark op ->
  forall n attempt last h,
  exists t,
    snd (fst (retry_loop n attempt last (announced c op) w h)) = h ++ t /\
    count_marked mark t
    = List.length (snd (retry_loop n attempt last (announced c op) w h)).
Proof.
  intros Hc Hlog Hwait Hop.
  induction n as [|n IH]; intros attempt last h; cbn [retry_loop].
  - exists []. now rewrite app_nil_r.
  - assert (Hann : announced c op w h = op w (h ++ [Returned c])) by reflexivity.
    rewrite Hann. clear Hann.
    destruct (Hop w (h ++ [Returned c])) as (t0 & Ht0 & Hcount).
    destruct (op w (h ++ [Returned c])) as [[a|e|code] h1]; cbn [snd] in Ht0; subst h1.
    + exists (Returned c :: t0). rewrite <- app_assoc. split; [reflexivity|].
      change (Returned c :: t0) with ([Returned c] ++ t0).
      rewrite count_marked_app, Hcount. unfold count_marked. cbn. now rewrite Hc.
    + destruct (retryable w e && negb (Nat.eqb n 0)).
      * match goal with
        | |- context [retry_loop n ?a ?x (announced c op) w ?hh] =>
            destruct (IH a x hh) as (t & Ht & Hmade);
            destruct (retry_loop n a x (announced c op) w hh) as [res made]
        end.
        cbn [fst snd] in *.
        exists ([Returned c] ++ t0 ++ [Returned (retry_log_failure attempt e)]
                  ++ [Returned (retry_wait attempt)] ++ t).
        split; [rewrite Ht; now repeat rewrite <- app_assoc|].
        repeat rewrite count_marked_app. rewrite Hcount, Hmade.
        unfold count_marked. cbn. now rewrite Hc, Hlog, Hwait.
      * exists ([Returned c] ++ t0 ++ [Returned (retry_log_failure attempt e)]).
        split; [cbn [fst snd]; now repeat rewrite <- app_assoc|].
        repeat rewrite count_marked_app. rewrite Hcount.
        unfold count_marked. cbn. now rewrite Hc, Hlog.
    + exists (Returned c :: t0). rewrite <- app_assoc. split; [reflexivity|].
      change (Returned c :: t0) with ([Returned c] ++ t0).
      rewrite count_marked_app, Hcount. unfold count_marked. cbn. now rewrite Hc.
Qed.
End RetryFacts.

(** C8.  For the retry executor with maximum attempt count
    [max_attempts w]: the wrapped operation is invoked at most that many
    times; a failure is propagated to the caller if and only if every
    attempt failed; and an attempt that failed with a cause that is not
    retryable was the last one.  The attempts are the runs of the
    operation: their outcomes are those of consecutive applications of
    the operation to the history reached, which leave the history that
    the executor returns; and when the operation announces each of its
    invocations by a record of its own, the history holds as many of these
    records as there were attempts, hence at most [max_attempts w]. *)
Theorem file_operation_retry_bounded {A} (op : M A) (w : World) (h : history) :
  List.length (attempts_made op w h) <= max_attempts w
  /\ ((exists e, fst (file_operation_retry op w h) = Raise e)
      <-> Forall is_failure (attempts_made op w h))
  /\ (forall earlier e later,
         attempts_made op w h = earlier ++ Raise e :: later ->
         retryable w e = false ->
         later = [])
  /\ attempt_runs op w 1 h (attempts_made op w h)
                  (snd (file_operation_retry op w h))
  /\ (forall (mark : event -> bool) (c : call),
         mark (Returned c) = true ->
         (forall attempt e, mark (Returned (retry_log_failure attempt e)) = false) ->
         (forall attempt, mark (Returned (retry_wait attempt)) = false) ->
         unmarked mark op ->
         exists t,
           snd (file_operation_retry (announced c op) w h) = h ++ t /\
           count_marked mark t = List.length (attempts_made (announced c op) w h) /\
           count_marked mark t <= max_attempts w).
Proof.
  match goal with |- _ /\ _ /\ _ /\ _ /\ ?P => assert (Hinv : P) end.
  { intros mark c Hc Hlog Hwait Hop.
    destruct (retry_loop_invocations op w mark c Hc Hlog Hwait Hop
                                     (max_attempts w) 1 no_attempt h)
      as (t & Ht & Hcount).
    exists t. unfold file_operation_retry, attempts_made.
    split; [exact Ht|]. split; [exact Hcount|].
    rewrite Hcount. apply (retry_loop_attempts (announced c op) w). }
  revert Hinv.
  pose proof (retry_loop_runs op w (max_attempts w) 1 no_attempt h) as Hruns.
  unfold attempts_made, file_operation_retry.
  destruct (retry_loop_attempts op w (max_attempts w) 1 no_attempt h)
    as (Hlen & Hzero & Hpos).
  destruct (retry_loop (max_attempts w) 1 no_attempt op w h) as [[r h'] made].
  cbn [fst snd] in *. intros Hinv.
  split; [exact Hlen|].
  split; [split | split; [| split; [exact Hruns | exact Hinv]]].
  - intros [e ->]. destruct (max_attempts w) as [|n].
    + destruct Hzero as [_ ->]; [reflexivity | constructor].
    + destruct Hpos as (earlier & -> & Hearlier); [lia|].
      apply Forall_app. split.
      * eapply Forall_impl; [|exact Hearlier]. intros x (e' & -> & _). now exists e'.
      * constructor; [now exists e | constructor].
  - intros Hall. destruct (max_attempts w) as [|n].
    + destruct Hzero as [-> _]; [reflexivity | now exists no_attempt].
    + destruct Hpos as (earlier & -> & _); [lia|].
      apply Forall_app in Hall. destruct Hall as [_ Hall].
      inversion Hall; subst. assumption.
  - intros earlier e later Hsplit He.
    destruct (max_attempts w) as [|n].
    + destruct Hzero as [_ ->]; [reflexivity|]. now destruct earlier.
    + destruct Hpos as (before & -> & Hbefore); [lia|].
      destruct later as [|x later]; [reflexivity|]. exfalso.
      assert (Hin : In (Raise e) before).
      { assert (Hlast : before ++ [r] = (earlier ++ Raise e :: removelast (x :: later))
                                        ++ [last (x :: later) r]).
        { rewrite Hsplit. rewrite <- app_assoc. cbn [app]. f_equal. f_equal.
          apply app_removelast_last. discriminate. }
        apply app_inj_tail in Hlast. destruct Hlast as [-> _].
        apply in_or_app. right. now left. }
      rewrite Forall_forall in Hbefore.
      destruct (Hbefore _ Hin) as (e' & Heq & Hretry).
      inversion Heq; subst. congruence.
Qed.

Lemma unmarked_load_call data_path :
  unmarked is_invocation_note (ext_unit (WF_load_data data_path None)).
Proof.
  intros w h. unfold ext_unit, ext.
  destruct (raises w h _); eexists; (split; [reflexivity|]); reflexivity.
Qed.

Lemma file_operation_retry_bounded_witness :
  let op := ext_unit (WF_load_data "/opt/pye/data/TURBINE_INFO" None) in
  List.length (attempts_made (announced invocation_note op) unreadable_data []) = 3
  /\ exists t,
       snd (file_operation_retry (announced invocation_note op) unreadable_data [])
       = t /\
       count_marked is_invocation_note t
       = List.length (attempts_made (announced invocation_note op) unreadable_data [])
       /\ count_marked is_invocation_note t <= 3.
Proof.
  intros op. split; [reflexivity|].
  destruct (file_operation_retry_bounded op unreadable_data [])
    as (_ & _ & _ & _ & Hcount).
  apply (Hcount is_invocation_note invocation_note);
    [ reflexivity | reflexivity | reflexivity | apply unmarked_load_call ].
Defined.

(* ================================================================== *)
(** * Resource resolution *)
(* ================================================================== *)

Lemma prefix_append s rest : String.prefix s (s +++ rest) = true.
Proof.
  induction s as [|a s IH]; cbn; [now destruct rest|].
  destruct (ascii_dec a a); [exact IH | congruence].
Qed.

Lemma append_assoc (a b c : string) : (a +++ b) +++ c = a +++ b +++ c.
Proof. induction a as [|x a IH]; cbn; [reflexivity | now rewrite IH]. Qed.

Lemma contains_here s rest : contains s (s +++ rest) = true.
Proof.
  destruct (s +++ rest) eqn:E; cbn [contains]; rewrite <- E, prefix_append; reflexivity.
Qed.

Lemma contains_append_r s before rest :
  contains s rest = true -> contains s (before +++ rest) = true.
Proof.
  intros H. induction before as [|a before IH]; cbn [String.append contains];
    [exact H|].
  rewrite IH. apply orb_true_r.
Qed.

Lemma main_exits w h code h' :
  main_body w h = (SystemExit code, h') -> main w h = (SystemExit code, h').
Proof. intros H. unfold main, handle_critical_errors, try_except. now rewrite H. Qed.

Lemma main_body_at_gif_check w h0 username gif_directory logo_path h :
  reaches_gif_check w h0 username gif_directory logo_path h ->
  main_body w h0
  = (resolve_gif_directory username gif_directory ;;
     logo <- resolve_logo username logo_path ;;
     auth_onward gif_directory logo) w h.
Proof.
  intros (h1 & h2 & h3 & Hinit & Hboot & Hicon & Hpaths).
  unfold main_body. rewrite (bind_returns _ _ _ _ _ _ Hinit).
  rewrite (bind_returns _ _ _ _ _ _ Hboot). unfold resources_onward.
  rewrite (bind_returns _ _ _ _ _ _ Hicon).
  rewrite (bind_returns _ _ _ _ _ _ Hpaths). reflexivity.
Qed.

Lemma main_body_at_logo_check w h0 username gif_directory logo_path h :
  reaches_logo_check w h0 username gif_directory logo_path h ->
  main_body w h0
  = (logo <- resolve_logo username logo_path ;; auth_onward gif_directory logo) w h.
Proof.
  intros (h4 & Hreach & Hgif).
  rewrite (main_body_at_gif_check _ _ _ _ _ _ Hreach).
  now rewrite (bind_returns _ _ _ _ _ _ Hgif).
Qed.

Lemma resolve_gif_directory_created w h username gif_directory :
  sink_ok w ->
  raises w h (Path_is_dir gif_directory) = None ->
  truth w h (Path_is_dir gif_directory) = false ->
  raises w (h ++ [Returned (Path_is_dir gif_directory)]) (Path_mkdir gif_directory)
    = None ->
  resolve_gif_directory username gif_directory w h
  = (Return tt, h ++ gif_created_events username gif_directory).
Proof.
  intros Hsink Hcheck Habsent Hmkdir.
  unfold resolve_gif_directory. open_calls.
  call_ok ltac:(exact Hcheck). rewrite Habsent. cbn [negb]. unfold try_except.
  call_ok ltac:(exact Hmkdir). call_ok ltac:(by_sink Hsink). reflexivity.
Qed.

Lemma resolve_gif_directory_fatal w h username gif_directory e :
  sink_ok w ->
  raises w h (Path_is_dir gif_directory) = None ->
  truth w h (Path_is_dir gif_directory) = false ->
  raises w (h ++ [Returned (Path_is_dir gif_directory)]) (Path_mkdir gif_directory)
    = Some e ->
  resolve_gif_directory username gif_directory w h
  = (SystemExit 1%Z, h ++ gif_fatal_events username gif_directory e).
Proof.
  intros Hsink Hcheck Habsent Hmkdir.
  unfold resolve_gif_directory. open_calls.
  call_ok ltac:(exact Hcheck). rewrite Habsent. cbn [negb]. unfold try_except.
  call_fails Hmkdir.
  call_ok ltac:(by_sink Hsink). call_ok ltac:(by_sink Hsink).
  call_ok ltac:(by_sink Hsink). reflexivity.
Qed.

(** C4.  When the GIF directory is absent and can be created, the
    sequencer creates it, logs exactly one (info-level) creation event and
    continues with the logo check.  When it is absent and its creation
    raises, the sequencer logs the error, shows exactly one critical dialog,
    whose text contains the directory path and the error string, and the
    process exits with code 1.  Assumed: reporting does not fail. *)
Theorem gif_directory_created_or_fatal
        (w : World) (h : history) (username : string) (gif_directory : path) :
  sink_ok w ->
  raises w h (Path_is_dir gif_directory) = None ->
  truth w h (Path_is_dir gif_directory) = false ->
  (raises w (h ++ [Returned (Path_is_dir gif_directory)]) (Path_mkdir gif_directory)
     = None ->
   resolve_gif_directory username gif_directory w h
   = (Return tt, h ++ gif_created_events username gif_directory)
   /\ (forall h0 logo_path,
          reaches_gif_check w h0 username gif_directory logo_path h ->
          main_body w h0
          = (logo <- resolve_logo username logo_path ;; auth_onward gif_directory logo)
              w (h ++ gif_created_events username gif_directory)))
  /\
  (forall e,
      raises w (h ++ [Returned (Path_is_dir gif_directory)]) (Path_mkdir gif_directory)
        = Some e ->
      resolve_gif_directory username gif_directory w h
      = (SystemExit 1%Z, h ++ gif_fatal_events username gif_directory e)
      /\ filter is_critical_dialog (gif_fatal_events username gif_directory e)
         = [Returned (QMessageBox_critical "Resource Error"
                                           (gif_dialog_text gif_directory e))]
      /\ contains gif_directory (gif_dialog_text gif_directory e) = true
      /\ contains (str e) (gif_dialog_text gif_directory e) = true
      /\ (forall h0 logo_path,
             reaches_gif_check w h0 username gif_directory logo_path h ->
             main w h0
             = (SystemExit 1%Z, h ++ gif_fatal_events username gif_directory e))).
Proof.
  intros Hsink Hcheck Habsent. split.
  - intros Hmkdir.
    pose proof (resolve_gif_directory_created w h username gif_directory
                  Hsink Hcheck Habsent Hmkdir) as Hgif.
    split; [exact Hgif|]. intros h0 logo_path Hreach.
    rewrite (main_body_at_gif_check _ _ _ _ _ _ Hreach).
    now rewrite (bind_returns _ _ _ _ _ _ Hgif).
  - intros e Hmkdir.
    pose proof (resolve_gif_directory_fatal w h username gif_directory e
                  Hsink Hcheck Habsent Hmkdir) as Hgif.
    split; [exact Hgif|]. split; [reflexivity|]. split; [|split].
    + unfold gif_dialog_text, gif_error_text. rewrite append_assoc.
      apply contains_append_r, contains_here.
    + unfold gif_dialog_text.
      do 4 apply contains_append_r. apply contains_here.
    + intros h0 logo_path Hreach. apply main_exits.
      rewrite (main_body_at_gif_check _ _ _ _ _ _ Hreach).
      now rewrite (bind_exits _ _ _ _ _ _ Hgif).
Qed.

Lemma sink_ok_gif_missing : sink_ok gif_missing.
Proof. intros h c _. reflexivity. Qed.

Lemma sink_ok_gif_uncreatable : sink_ok gif_uncreatable.
Proof. intros h c Hc. destruct c; try discriminate Hc; reflexivity. Qed.

Lemma gif_directory_created_or_fatal_witness :
  resolve_gif_directory "pierre" "/opt/pye/GIF_DIR" gif_missing []
  = (Return tt, gif_created_events "pierre" "/opt/pye/GIF_DIR")
  /\ fst (main gif_uncreatable []) = SystemExit 1%Z.
Proof.
  split.
  - destruct (gif_directory_created_or_fatal gif_missing [] "pierre" "/opt/pye/GIF_DIR")
      as [Hcreated _]; [exact sink_ok_gif_missing | reflexivity | reflexivity |].
    apply Hcreated. reflexivity.
  - pose (h := snd ((logging_init ;; data_bootstrap ;; window_icon ;; resource_paths)
                      gif_uncreatable [])).
    destruct (gif_directory_created_or_fatal gif_uncreatable h "pierre" "/opt/pye/GIF_DIR")
      as [_ Hfatal]; [exact sink_ok_gif_uncreatable | reflexivity | reflexivity |].
    destruct (Hfatal read_only_fs eq_refl) as (_ & _ & _ & _ & Hmain).
    rewrite (Hmain [] "/opt/pye/ICONS_DIR/splash_icon.svg"); [reflexivity|].
    do 3 eexists. repeat split; reflexivity.
Defined.

Lemma resolve_logo_steps w h username logo_path :
  sink_ok w ->
  raises w h (Path_exists logo_path) = None ->
  truth w h (Path_exists logo_path) = false ->
  let h1 := h ++ logo_missing_events username logo_path in
  raises w h1 (config_get_path "ICONS_DIR") = None ->
  let fallback_logo :=
    path_join w (text w h1 (config_get_path "ICONS_DIR")) "fallback_logo.svg" in
  let h2 := h ++ logo_missing_events username logo_path
              ++ [Returned (config_get_path "ICONS_DIR")] in
  raises w h2 (Path_exists fallback_logo) = None ->
  resolve_logo username logo_path w h
  = if truth w h2 (Path_exists fallback_logo)
    then (Return fallback_logo,
          h2 ++ [ Returned (Path_exists fallback_logo);
                  Returned (log_event username "Resource Fallback"
                                      ("Using fallback logo: " +++ fallback_logo) info) ])
    else (SystemExit 1%Z,
          h2 ++ [ Returned (Path_exists fallback_logo);
                  Returned (QMessageBox_critical "Resource Error"
                                                 (logo_dialog_text logo_path)) ]).
Proof.
  intros Hsink Hcheck Habsent h1 Hicons fallback_logo h2 Hcheck2.
  subst h1 h2 fallback_logo. unfold logo_missing_events in *. cbn [app] in *.
  unfold resolve_logo. open_calls.
  call_ok ltac:(exact Hcheck). rewrite Habsent. cbn [negb].
  call_ok ltac:(by_sink Hsink). call_ok ltac:(exact Hicons).
  rewrite bind_joinpath. call_ok ltac:(exact Hcheck2).
  match goal with |- context [if ?b then _ else _] => destruct b end.
  - cbv iota. call_ok ltac:(by_sink Hsink). reflexivity.
  - cbv iota. call_ok ltac:(by_sink Hsink). reflexivity.
Qed.

(** C5.  When the logo is absent and the fallback logo exists, resource
    resolution yields the fallback path (the loading screen is then built
    with it), logs a fallback event, and the sequence continues.  When both
    are absent, a critical dialog is shown and the process exits with
    code 1.  Assumed: reporting and the look-ups made on the way do not
    fail. *)
Theorem logo_fallback_or_fatal
        (w : World) (h : history) (username : string) (logo_path : path) :
  sink_ok w ->
  raises w h (Path_exists logo_path) = None ->
  truth w h (Path_exists logo_path) = false ->
  let h1 := h ++ logo_missing_events username logo_path in
  raises w h1 (config_get_path "ICONS_DIR") = None ->
  let fallback_logo :=
    path_join w (text w h1 (config_get_path "ICONS_DIR")) "fallback_logo.svg" in
  let h2 := h ++ logo_missing_events username logo_path
              ++ [Returned (config_get_path "ICONS_DIR")] in
  raises w h2 (Path_exists fallback_logo) = None ->
  (truth w h2 (Path_exists fallback_logo) = true ->
   let h3 := h ++ logo_missing_events username logo_path
               ++ [ Returned (config_get_path "ICONS_DIR");
                    Returned (Path_exists fallback_logo);
                    Returned (log_event username "Resource Fallback"
                                        ("Using fallback logo: " +++ fallback_logo) info) ] in
   resolve_logo username logo_path w h = (Return fallback_logo, h3)
   /\ (forall h0 gif_directory,
          reaches_logo_check w h0 username gif_directory logo_path h ->
          main_body w h0 = auth_onward gif_directory fallback_logo w h3))
  /\
  (truth w h2 (Path_exists fallback_logo) = false ->
   let h3 := h ++ logo_missing_events username logo_path
               ++ [ Returned (config_get_path "ICONS_DIR");
                    Returned (Path_exists fallback_logo);
                    Returned (QMessageBox_critical "Resource Error"
                                                   (logo_dialog_text logo_path)) ] in
   resolve_logo username logo_path w h = (SystemExit 1%Z, h3)
   /\ (forall h0 gif_directory,
          reaches_logo_check w h0 username gif_directory logo_path h ->
          main w h0 = (SystemExit 1%Z, h3))).
Proof.
  intros Hsink Hcheck Habsent h1 Hicons fallback_logo h2 Hcheck2.
  pose proof (resolve_logo_steps w h username logo_path
                Hsink Hcheck Habsent Hicons Hcheck2) as Hlogo.
  fold h1 fallback_logo h2 in Hlogo.
  split; intros Hfallback h3; rewrite Hfallback in Hlogo;
    assert (Hrun : resolve_logo username logo_path w h = (fst (resolve_logo username logo_path w h), h3))
      by (rewrite Hlogo; subst h2 h3; unfold logo_missing_events; cbn [fst]; flat; reflexivity);
    rewrite Hlogo in Hrun at 2; cbn [fst] in Hrun.
  - split; [exact Hrun|]. intros h0 gif_directory Hreach.
    rewrite (main_body_at_logo_check _ _ _ _ _ _ Hreach).
    now rewrite (bind_returns _ _ _ _ _ _ Hrun).
  - split; [exact Hrun|]. intros h0 gif_directory Hreach.
    apply main_exits.
    rewrite (main_body_at_logo_check _ _ _ _ _ _ Hreach).
    now rewrite (bind_exits _ _ _ _ _ _ Hrun).
Qed.

Lemma sink_ok_logo_missing : sink_ok logo_missing.
Proof. intros h c _. reflexivity. Qed.

Lemma sink_ok_no_logo : sink_ok no_logo.
Proof. intros h c _. reflexivity. Qed.

Lemma logo_fallback_or_fatal_witness :
  resolve_logo "pierre" "/opt/pye/ICONS_DIR/splash_icon.svg" logo_missing []
  = (Return "/opt/pye/ICONS_DIR/fallback_logo.svg",
     logo_missing_events "pierre" "/opt/pye/ICONS_DIR/splash_icon.svg"
       ++ [ Returned (config_get_path "ICONS_DIR");
            Returned (Path_exists "/opt/pye/ICONS_DIR/fallback_logo.svg");
            Returned (log_event "pierre" "Resource Fallback"
                        "Using fallback logo: /opt/pye/ICONS_DIR/fallback_logo.svg" info) ])
  /\ fst (main no_logo []) = SystemExit 1%Z
  /\ fst (resolve_logo "pierre" "/splash_icon.svg" icons_at_root [])
     = Return "/fallback_logo.svg".
Proof.
  split; [|split].
  - destruct (logo_fallback_or_fatal logo_missing [] "pierre"
                "/opt/pye/ICONS_DIR/splash_icon.svg")
      as [Hfallback _];
      [exact sink_ok_logo_missing | reflexivity | reflexivity | reflexivity
       | reflexivity |].
    apply Hfallback. reflexivity.
  - pose (h := snd ((username <- logging_init ;; data_bootstrap ;; window_icon ;;
                     paths <- resource_paths ;;
                     resolve_gif_directory username (fst paths)) no_logo [])).
    destruct (logo_fallback_or_fatal no_logo h "pierre"
                "/opt/pye/ICONS_DIR/splash_icon.svg")
      as [_ Hfatal];
      [exact sink_ok_no_logo | reflexivity | reflexivity | reflexivity
       | reflexivity |].
    destruct (Hfatal eq_refl) as [_ Hmain].
    rewrite (Hmain [] "/opt/pye/GIF_DIR"); [reflexivity|].
    eexists. split; [do 3 eexists; repeat split; reflexivity | reflexivity].
  - destruct (logo_fallback_or_fatal icons_at_root [] "pierre" "/splash_icon.svg")
      as [Hfallback _];
      [intros h c _; reflexivity | reflexivity | reflexivity | reflexivity
       | reflexivity |].
    destruct (Hfallback eq_refl) as [Hrun _]. rewrite Hrun. reflexivity.
Defined.

(* ================================================================== *)
(** * The deferred activation handler *)
(* ================================================================== *)

(** Case analysis on every collaborator call of an unfolded task; calls of
    the reporting channels return by [Hsink]. *)
Ltac open_task :=
  unfold task3_update_check, task4_dashboard, task4_updates, task5_memory,
    try_except, bind, ret, ext_unit, ext_bool, ext_text, ext;
  cbv beta.

Ltac split_calls Hsink :=
  repeat match goal with
         | |- context [raises ?w ?h ?c] =>
             first [ rewrite (Hsink h c eq_refl)
                   | destruct (raises w h c) eqn:? ]
         | |- context [if ?b then _ else _] => destruct b eqn:?
         end.

Lemma task3_isolated w h :
  sink_ok w ->
  exists ev t,
    task3_update_check w h = (Return tt, h ++ ev :: t) /\
    ev_call ev = window_check_for_updates.
Proof.
  intros Hsink. open_task. split_calls Hsink; flat;
    do 2 eexists; split; reflexivity.
Qed.

Lemma task4_isolated w h :
  sink_ok w ->
  exists ev t,
    task4_dashboard w h = (Return tt, h ++ ev :: t) /\
    ev_call ev = combo_box_currentText.
Proof.
  intros Hsink. open_task. split_calls Hsink; flat;
    do 2 eexists; split; reflexivity.
Qed.

Lemma task5_isolated w h :
  sink_ok w ->
  exists ev t,
    task5_memory w h = (Return tt, h ++ ev :: t) /\
    ev_call ev = WF_monitor_memory_usage.
Proof.
  intros Hsink. open_task. split_calls Hsink; flat;
    do 2 eexists; split; reflexivity.
Qed.

(** Tasks 3 to 5, run one after the other, all return. *)
Lemma tasks_3_to_5_run w h :
  sink_ok w ->
  exists ev3 t3 ev4 t4 ev5 t5,
    ev_call ev3 = window_check_for_updates /\
    ev_call ev4 = combo_box_currentText /\
    ev_call ev5 = WF_monitor_memory_usage /\
    task3_update_check w h = (Return tt, h ++ ev3 :: t3) /\
    task4_dashboard w (h ++ ev3 :: t3) = (Return tt, h ++ ev3 :: t3 ++ ev4 :: t4) /\
    task5_memory w (h ++ ev3 :: t3 ++ ev4 :: t4)
    = (Return tt, h ++ ev3 :: t3 ++ ev4 :: t4 ++ ev5 :: t5) /\
    (task3_update_check ;; task4_dashboard ;; task5_memory) w h
    = (Return tt, h ++ ev3 :: t3 ++ ev4 :: t4 ++ ev5 :: t5).
Proof.
  intros Hsink.
  destruct (task3_isolated w h Hsink) as (ev3 & t3 & H3 & Hc3).
  destruct (task4_isolated w (h ++ ev3 :: t3) Hsink) as (ev4 & t4 & H4 & Hc4).
  destruct (task5_isolated w ((h ++ ev3 :: t3) ++ ev4 :: t4) Hsink)
    as (ev5 & t5 & H5 & Hc5).
  repeat rewrite <- app_assoc in H4. repeat rewrite <- app_assoc in H5.
  cbn [app] in H4, H5.
  exists ev3, t3, ev4, t4, ev5, t5. repeat split; try assumption.
  rewrite (bind_returns _ _ _ _ _ _ H3), (bind_returns _ _ _ _ _ _ H4). exact H5.
Qed.

Lemma on_splash_closed_after_show w h h2 :
  (task1_bind_auth ;; task2_show_window) w h = (Return tt, h2) ->
  on_splash_closed w h
  = (task3_update_check ;; task4_dashboard ;; task5_memory) w h2.
Proof.
  unfold on_splash_closed. unfold bind at 1 2 3.
  destruct (task1_bind_auth w h) as [[[]|e|c] h1]; try discriminate.
  unfold bind at 1.
  destruct (task2_show_window w h1) as [[[]|e|c] h2']; try discriminate.
  now intros [= ->].
Qed.

(** C3, as stated, fails for task 2: an exception raised by [window.show]
    leaves the handler, and no later task runs. *)
Lemma show_failure_leaves_handler : ~ every_task_isolated window_unshowable [].
Proof.
  intros [Hcaught _]. apply (Hcaught cannot_show). reflexivity.
Qed.

(** C3, amended.  The tasks with a [try] block, 3, 4 and 5, contain their
    exceptions: each of them returns normally whatever its collaborators
    do, so once tasks 1 and 2 have returned all three run and the handler
    returns.  Tasks 1 and 2 have no [try] block: an exception raised by
    binding the authentication service or by showing the window leaves
    [on_splash_closed] at once.  Assumed: the reporting done in the
    [except] clauses does not fail. *)
Theorem tasks_with_try_block_isolated (w : World) (h : history) :
  sink_ok w ->
  (forall h2,
      (task1_bind_auth ;; task2_show_window) w h = (Return tt, h2) ->
      exists ev3 t3 ev4 t4 ev5 t5,
        ev_call ev3 = window_check_for_updates /\
        ev_call ev4 = combo_box_currentText /\
        ev_call ev5 = WF_monitor_memory_usage /\
        task3_update_check w h2 = (Return tt, h2 ++ ev3 :: t3) /\
        task4_dashboard w (h2 ++ ev3 :: t3) = (Return tt, h2 ++ ev3 :: t3 ++ ev4 :: t4) /\
        task5_memory w (h2 ++ ev3 :: t3 ++ ev4 :: t4)
        = (Return tt, h2 ++ ev3 :: t3 ++ ev4 :: t4 ++ ev5 :: t5) /\
        on_splash_closed w h = (Return tt, h2 ++ ev3 :: t3 ++ ev4 :: t4 ++ ev5 :: t5))
  /\
  (forall e h', task1_bind_auth w h = (Raise e, h') ->
                on_splash_closed w h = (Raise e, h'))
  /\
  (forall e h1 h', task1_bind_auth w h = (Return tt, h1) ->
                   task2_show_window w h1 = (Raise e, h') ->
                   on_splash_closed w h = (Raise e, h')).
Proof.
  intros Hsink. split; [|split].
  - intros h2 H12.
    destruct (tasks_3_to_5_run w h2 Hsink)
      as (ev3 & t3 & ev4 & t4 & ev5 & t5 & Hc3 & Hc4 & Hc5 & H3 & H4 & H5 & Hall).
    exists ev3, t3, ev4, t4, ev5, t5. repeat split; try assumption.
    now rewrite (on_splash_closed_after_show _ _ _ H12).
  - intros e h' H1. unfold on_splash_closed. now rewrite (bind_raises _ _ _ _ _ _ H1).
  - intros e h1 h' H1 H2. unfold on_splash_closed.
    rewrite (bind_returns _ _ _ _ _ _ H1). now rewrite (bind_raises _ _ _ _ _ _ H2).
Qed.

Lemma sink_ok_update_check_fails : sink_ok update_check_fails.
Proof. intros h c Hc. destruct c; try discriminate Hc; reflexivity. Qed.

Lemma sink_ok_window_unshowable : sink_ok window_unshowable.
Proof. intros h c Hc. destruct c; try discriminate Hc; reflexivity. Qed.

Lemma tasks_with_try_block_isolated_witness :
  fst (on_splash_closed update_check_fails []) = Return tt
  /\ on_splash_closed window_unshowable []
     = (Raise cannot_show,
        [ Returned hasattr_set_auth_service;
          Returned window_set_auth_service;
          Raised window_show cannot_show ]).
Proof.
  split.
  - destruct (tasks_with_try_block_isolated update_check_fails []
                sink_ok_update_check_fails) as [Hrun _].
    destruct (Hrun [Returned hasattr_set_auth_service;
                    Returned window_set_auth_service;
                    Returned window_show] eq_refl)
      as (ev3 & t3 & ev4 & t4 & ev5 & t5 & _ & _ & _ & _ & _ & _ & Hall).
    now rewrite Hall.
  - destruct (tasks_with_try_block_isolated window_unshowable []
                sink_ok_window_unshowable) as (_ & _ & Hshow).
    apply (Hshow cannot_show [Returned hasattr_set_auth_service;
                              Returned window_set_auth_service]); reflexivity.
Defined.

(** ** Behaviour that does not depend on the history *)

Section Steady.
Variable w : World.
Hypothesis Hw : stateless w.

Lemma steady_ret {A} (a : A) : steady w (ret a).
Proof. intros h h'. exists (Return a), []. cbn. now rewrite !app_nil_r. Qed.

Lemma steady_ext {A} (answer : World -> history -> call -> A) c :
  (forall h h', answer w h c = answer w h' c) -> steady w (ext answer c).
Proof.
  intros Hanswer h h'. unfold ext.
  destruct (Hw h h' c) as (Hraises & _). rewrite <- Hraises.
  destruct (raises w h c) as [e|].
  - now exists (Raise e), [Raised c e].
  - exists (Return (answer w h c)), [Returned c]. now rewrite (Hanswer h h').
Qed.

Lemma steady_bind {A B} (m : M A) (k : A -> M B) :
  steady w m -> (forall a, steady w (k a)) -> steady w (bind m k).
Proof.
  intros Hm Hk h h'. unfold bind.
  destruct (Hm h h') as (r & t & -> & ->). destruct r as [a|e|c].
  - destruct (Hk a (h ++ t) (h' ++ t)) as (r2 & t2 & -> & ->).
    exists r2, (t ++ t2). now rewrite !app_assoc.
  - now exists (Raise e), t.
  - now exists (SystemExit c), t.
Qed.

Lemma steady_try {A} (body : M A) (handler : exn -> M A) :
  steady w body -> (forall e, steady w (handler e)) ->
  steady w (try_except body handler).
Proof.
  intros Hm Hk h h'. unfold try_except.
  destruct (Hm h h') as (r & t & -> & ->). destruct r as [a|e|c].
  - now exists (Return a), t.
  - destruct (Hk e (h ++ t) (h' ++ t)) as (r2 & t2 & -> & ->).
    exists r2, (t ++ t2). now rewrite !app_assoc.
  - now exists (SystemExit c), t.
Qed.

Lemma steady_if {A} (b : bool) (m1 m2 : M A) :
  steady w m1 -> steady w m2 -> steady w (if b then m1 else m2).
Proof. now destruct b. Qed.

Lemma steady_tasks_4_5 : steady w (task4_dashboard ;; task5_memory).
Proof.
  unfold task4_dashboard, task4_updates, task5_memory. open_calls.
  repeat first
    [ apply steady_ret
    | apply steady_ext; intros; try reflexivity; apply Hw
    | apply steady_if
    | apply steady_bind; [ | intros ? ]
    | apply steady_try; [ | intros ? ] ].
Qed.
End Steady.

(** C6.  If the update check of task 3 raises, the handler logs exactly
    one error-level entry for it and goes on with tasks 4 and 5, which both
    run to their end.  What they do is what [task4_dashboard] and
    [task5_memory] do anyway: with collaborators that do not depend on the
    history, their outcome and events are the same as from any other
    history, such as the one in which the check had returned.  Assumed:
    reporting does not fail. *)
Theorem update_check_failure_isolated (w : World) (h h2 : history) (e : exn) :
  sink_ok w ->
  (task1_bind_auth ;; task2_show_window) w h = (Return tt, h2) ->
  raises w h2 window_check_for_updates = Some e ->
  let user := text w (h2 ++ [Raised window_check_for_updates e]) get_username_from_path in
  let entry := Returned (log_event user "Update Check Error"
                                   ("Error checking for updates: " +++ str e) error) in
  let logged := [Raised window_check_for_updates e; Returned get_username_from_path; entry] in
  task3_update_check w h2 = (Return tt, h2 ++ logged)
  /\ filter is_error_log logged = [entry]
  /\ on_splash_closed w h = (task4_dashboard ;; task5_memory) w (h2 ++ logged)
  /\ (exists ev4 t4 ev5 t5,
         ev_call ev4 = combo_box_currentText /\
         ev_call ev5 = WF_monitor_memory_usage /\
         task4_dashboard w (h2 ++ logged) = (Return tt, h2 ++ logged ++ ev4 :: t4) /\
         task5_memory w (h2 ++ logged ++ ev4 :: t4)
         = (Return tt, h2 ++ logged ++ ev4 :: t4 ++ ev5 :: t5) /\
         on_splash_closed w h = (Return tt, h2 ++ logged ++ ev4 :: t4 ++ ev5 :: t5))
  /\ (stateless w ->
      exists r t,
        (task4_dashboard ;; task5_memory) w (h2 ++ logged) = (r, (h2 ++ logged) ++ t) /\
        (task4_dashboard ;; task5_memory) w (h2 ++ [Returned window_check_for_updates])
        = (r, (h2 ++ [Returned window_check_for_updates]) ++ t)).
Proof.
  intros Hsink H12 Hcheck user entry logged.
  assert (H3 : task3_update_check w h2 = (Return tt, h2 ++ logged)).
  { unfold task3_update_check, try_except. open_calls.
    call_fails Hcheck. call_ok ltac:(by_sink Hsink). call_ok ltac:(by_sink Hsink).
    reflexivity. }
  assert (Hrest : on_splash_closed w h
                  = (task4_dashboard ;; task5_memory) w (h2 ++ logged)).
  { rewrite (on_splash_closed_after_show _ _ _ H12).
    now rewrite (bind_returns _ _ _ _ _ _ H3). }
  split; [exact H3|]. split; [reflexivity|]. split; [exact Hrest|]. split.
  - destruct (task4_isolated w (h2 ++ logged) Hsink) as (ev4 & t4 & H4 & Hc4).
    destruct (task5_isolated w ((h2 ++ logged) ++ ev4 :: t4) Hsink)
      as (ev5 & t5 & H5 & Hc5).
    repeat rewrite <- app_assoc in H4. repeat rewrite <- app_assoc in H5.
    exists ev4, t4, ev5, t5. repeat split; try assumption.
    rewrite Hrest, (bind_returns _ _ _ _ _ _ H4). exact H5.
  - intros Hw. apply (steady_tasks_4_5 w Hw).
Qed.

Lemma stateless_update_check_fails : stateless update_check_fails.
Proof. intros h h' c. repeat split. Qed.

Lemma update_check_failure_isolated_witness :
  on_splash_closed update_check_fails []
  = (Return tt,
     [ Returned hasattr_set_auth_service;
       Returned window_set_auth_service;
       Returned window_show;
       Raised window_check_for_updates no_network;
       Returned get_username_from_path;
       Returned (log_event "pierre" "Update Check Error"
                   "Error checking for updates: Network is unreachable" error);
       Returned combo_box_currentText;
       Returned (dashboard_update_dashboard "Park A");
       Returned hasattr_import_raw_data_page;
       Returned (import_page_update_park_name "Park A");
       Returned (title_bar_update_selected_park "Park A");
       Returned WF_monitor_memory_usage ]).
Proof.
  destruct (update_check_failure_isolated update_check_fails []
              [ Returned hasattr_set_auth_service;
                Returned window_set_auth_service;
                Returned window_show ] no_network
              sink_ok_update_check_fails eq_refl eq_refl)
    as (_ & _ & Hrest & _ & _).
  rewrite Hrest. reflexivity.
Defined.

Ltac split_all :=
  repeat match goal with
         | |- context [raises ?w ?h ?c] => destruct (raises w h c) eqn:?
         | |- context [if ?b then _ else _] => destruct b eqn:?
         end.

Ltac flat_in_all :=
  repeat match goal with
         | H : context [(_ ++ _) ++ _] |- _ => rewrite <- app_assoc in H
         end;
  cbn [app] in *.

Lemma truthy_str_nonempty s : s <> "" -> truthy_str s = true.
Proof. destruct s; [congruence | reflexivity]. Qed.

(** C10.  Task 4 reads the selected park.  If it is empty, nothing else
    happens: no view is updated, nothing is logged, no warning is shown.
    If it is not empty, the dashboard update is the first thing called,
    the import page is updated only if the central content has the
    attribute [import_raw_data_page], and, the views accepting their
    updates, dashboard and title bar are updated in every case. *)
Theorem park_propagation (w : World) (h : history) :
  raises w h combo_box_currentText = None ->
  let park := text w h combo_box_currentText in
  (park = "" ->
   task4_dashboard w h = (Return tt, h ++ [Returned combo_box_currentText]))
  /\
  (park <> "" ->
   (exists ev rest,
       snd (task4_dashboard w h) = h ++ Returned combo_box_currentText :: ev :: rest /\
       ev_call ev = dashboard_update_dashboard park)
   /\ (forall t ev p,
          snd (task4_dashboard w h) = h ++ t ->
          In ev t ->
          ev_call ev = import_page_update_park_name p ->
          p = park /\
          truth w (h ++ [Returned combo_box_currentText;
                         Returned (dashboard_update_dashboard park)])
                hasattr_import_raw_data_page = true)
   /\ (views_ok w ->
       task4_dashboard w h
       = (Return tt, h ++ Returned combo_box_currentText :: park_update_events w h park))).
Proof.
  intros Hcur park. split.
  - intros Hempty. unfold task4_dashboard, task4_updates, try_except. open_calls.
    call_ok ltac:(exact Hcur). fold park. now rewrite Hempty.
  - intros Hpark. apply truthy_str_nonempty in Hpark. split; [|split].
    + open_task. rewrite Hcur. fold park. rewrite Hpark.
      split_all; flat; cbn [snd]; do 2 eexists; split; reflexivity.
    + intros t ev p. open_task. rewrite Hcur. fold park. rewrite Hpark.
      split_all; flat; cbn [snd]; intros Ht Hin Hev;
        apply app_inv_head in Ht; subst t; cbn [In] in Hin;
        repeat (destruct Hin as [<- | Hin]; [try discriminate Hev|]);
        try contradiction;
        flat_in_all; injection Hev as <-; split; (reflexivity || assumption).
    + intros Hviews. unfold task4_dashboard, task4_updates, try_except. open_calls.
      call_ok ltac:(exact Hcur). fold park. rewrite Hpark.
      call_ok ltac:(apply Hviews; reflexivity).
      call_ok ltac:(apply Hviews; reflexivity).
      unfold park_update_events. fold park.
      match goal with |- context [if ?b then _ else _] => destruct b end; cbv iota.
      * call_ok ltac:(apply Hviews; reflexivity).
        call_ok ltac:(apply Hviews; reflexivity). reflexivity.
      * rewrite bind_ret.
        call_ok ltac:(apply Hviews; reflexivity). reflexivity.
Qed.

Lemma views_ok_happy : views_ok happy.
Proof. intros h c _. reflexivity. Qed.

Lemma park_propagation_witness :
  task4_dashboard no_park [] = (Return tt, [Returned combo_box_currentText])
  /\ task4_dashboard happy []
     = (Return tt,
        [ Returned combo_box_currentText;
          Returned (dashboard_update_dashboard "Park A");
          Returned hasattr_import_raw_data_page;
          Returned (import_page_update_park_name "Park A");
          Returned (title_bar_update_selected_park "Park A") ]).
Proof.
  split.
  - destruct (park_propagation no_park [] eq_refl) as [Hempty _].
    apply Hempty. reflexivity.
  - destruct (park_propagation happy [] eq_refl) as [_ Hpark].
    destruct Hpark as (_ & _ & Hviews); [discriminate|].
    apply Hviews. exact views_ok_happy.
Defined.

(* ================================================================== *)
(** * The order of the stages *)
(* ================================================================== *)

(** ** Every computation only appends to the history *)

Ltac open_program :=
  unfold main_body, resources_onward, auth_onward, event_loop, on_splash_closed,
    logging_init, data_bootstrap, window_icon, resource_paths,
    resolve_gif_directory, resolve_logo, auth_init, window_construction,
    loading_screen_display, task1_bind_auth, task2_show_window,
    task3_update_check, task4_dashboard, task4_updates, task5_memory,
    load_data, load_data_body, create_empty_data_fallback,
    create_empty_data_fallback_impl_body;
  open_calls.

Ltac any_step := intros; eexists; split; [ reflexivity | exact I ].

Ltac appends :=
  repeat first
    [ apply triple_ret; tauto
    | apply triple_sys_exit; tauto
    | apply triple_ext; any_step
    | apply triple_emit; any_step
    | apply triple_if
    | apply triple_branch
    | apply triple_silent; [ reflexivity | tauto ]
    | apply (triple_retry step_any _ (fun _ => True)); [ | any_step | any_step ]
    | eapply triple_bind with (mid := fun _ _ => True); [ | intros ? | tauto | tauto ]
    | eapply triple_try with (mid := fun _ _ => True); [ | intros ? | tauto | tauto ] ].

Lemma triple_appends {St A} (step : St -> event -> option St) pre (m : M A) post :
  triple step pre m post -> forall w h, exists t, snd (m w h) = h ++ t.
Proof. intros H w h. destruct (H w h) as (t & Ht & _). eauto. Qed.

Lemma initial_part_ret {B} (m : M B) :
  triple step_any (fun _ => True) m (fun _ _ => True) ->
  initial_part (ret tt) m.
Proof. intros H w h. cbn. exact (triple_appends _ _ _ _ H w h). Qed.

Lemma initial_part_bind {A B} (m : M A) (p : A -> M unit) (k : A -> M B) :
  (forall a, initial_part (p a) (k a)) ->
  initial_part (bind m p) (bind m k).
Proof.
  intros H w h. unfold bind.
  destruct (m w h) as [[a|e|c] h1]; [apply H | reflexivity | reflexivity].
Qed.

Lemma stages_before_initial s : initial_part (stages_before s) main_body.
Proof.
  destruct s; unfold stages_before, main_body, resources_onward, auth_onward;
    repeat (apply initial_part_bind; intros ?);
    apply initial_part_ret; open_program; appends.
Qed.

(** ** Steps of the stage monitor *)

Lemma step_stage_within k cur ev :
  cur <= k -> k <= 6 ->
  phase_of ev = None \/ phase_of ev = Some k ->
  exists s', step_stage cur ev = Some s' /\ s' <= k.
Proof.
  intros Hcur Hk [Hev | Hev]; unfold step_stage; rewrite Hev; [eauto|].
  apply Nat.leb_le in Hcur. rewrite Hcur.
  assert (Hne : Nat.eqb k (stage_index DeferredActivation) = false)
    by (apply Nat.eqb_neq; cbn; lia).
  rewrite Hne. cbn. eauto.
Qed.

Lemma step_stage_deferred cur ev :
  7 <= cur <= 8 ->
  phase_of ev = None \/ phase_of ev = Some 8 ->
  exists s', step_stage cur ev = Some s' /\ 7 <= s' <= 8.
Proof.
  intros Hcur [Hev | Hev]; unfold step_stage; rewrite Hev; [eauto|].
  assert (H1 : Nat.leb cur 8 = true) by (apply Nat.leb_le; lia).
  assert (H2 : Nat.leb signal_index cur = true) by (apply Nat.leb_le; unfold signal_index; lia).
  rewrite H1, H2. cbn. exists 8. split; [reflexivity | lia].
Qed.

Ltac tagged := first [ left; reflexivity | right; reflexivity ].

(** A block whose calls belong to stage number [k]. *)
Ltac stage_block k :=
  repeat first
    [ apply triple_ret; intros; assumption
    | apply triple_sys_exit; intros; assumption
    | apply triple_ext;
      [ intros ? ? ?; apply (step_stage_within k); [ assumption | lia | tagged ]
      | intros ? ? ?; apply (step_stage_within k); [ assumption | lia | tagged ] ]
    | apply triple_if
    | apply triple_silent; [ reflexivity | intros; assumption ]
    | apply (triple_retry step_stage _ (fun s => s <= k));
      [ | intros ? ? ? ?; apply (step_stage_within k); [ assumption | lia | tagged ]
        | intros ? ? ?; apply (step_stage_within k); [ assumption | lia | tagged ] ]
    | eapply triple_bind with (mid := fun _ s => s <= k);
      [ | intros ? | intros; assumption | intros; assumption ]
    | eapply triple_try with (mid := fun _ s => s <= k);
      [ | intros ? | intros; assumption | intros; assumption ] ].

Lemma logging_init_stage :
  triple step_stage (fun s => s <= 1) logging_init (fun _ s => s <= 1).
Proof. unfold logging_init. open_calls. stage_block 1. Qed.

Lemma data_bootstrap_stage :
  triple step_stage (fun s => s <= 2) data_bootstrap (fun _ s => s <= 2).
Proof.
  unfold data_bootstrap, load_data, load_data_body, create_empty_data_fallback,
    create_empty_data_fallback_impl_body.
  open_calls. stage_block 2.
Qed.

Lemma window_icon_stage :
  triple step_stage (fun s => s <= 3) window_icon (fun _ s => s <= 3).
Proof. unfold window_icon. open_calls. stage_block 3. Qed.

Lemma resource_paths_stage :
  triple step_stage (fun s => s <= 3) resource_paths (fun _ s => s <= 3).
Proof. unfold resource_paths. open_calls. stage_block 3. Qed.

Lemma resolve_gif_directory_stage username gif_directory :
  triple step_stage (fun s => s <= 3)
         (resolve_gif_directory username gif_directory) (fun _ s => s <= 3).
Proof. unfold resolve_gif_directory. open_calls. stage_block 3. Qed.

Lemma resolve_logo_stage username logo_path :
  triple step_stage (fun s => s <= 3)
         (resolve_logo username logo_path) (fun _ s => s <= 3).
Proof. unfold resolve_logo. open_calls. stage_block 3. Qed.

Lemma auth_init_stage :
  triple step_stage (fun s => s <= 4) auth_init (fun _ s => s <= 4).
Proof. unfold auth_init. open_calls. stage_block 4. Qed.

Lemma window_construction_stage :
  triple step_stage (fun s => s <= 5) window_construction (fun _ s => s <= 5).
Proof. unfold window_construction. open_calls. stage_block 5. Qed.

Lemma loading_screen_display_stage gif_directory logo_path :
  triple step_stage (fun s => s <= 6)
         (loading_screen_display gif_directory logo_path) (fun _ s => s <= 6).
Proof. unfold loading_screen_display. open_calls. stage_block 6. Qed.

Lemma connect_stage :
  triple step_stage (fun s => s <= 6) (ext_unit splash_closed_connect)
         (fun _ s => s <= 6).
Proof. open_calls. stage_block 6. Qed.

(** Sequencing a block with what follows it. *)
Lemma stage_seq {A B} a b c (m : M A) (k : A -> M B) :
  triple step_stage (fun s => s <= a) m (fun _ s => s <= a) ->
  (forall x, triple step_stage (fun s => s <= b) (k x) (fun _ s => s <= c)) ->
  a <= b -> a <= c ->
  triple step_stage (fun s => s <= a) (bind m k) (fun _ s => s <= c).
Proof.
  intros Hm Hk Hab Hac.
  eapply triple_bind with (mid := fun _ s => s <= a); [exact Hm | | |].
  - intros x. eapply triple_conseq; [apply Hk | |]; cbn; intros; [lia | assumption].
  - cbn. intros. lia.
  - cbn. intros. lia.
Qed.

Lemma stage_end c :
  triple step_stage (fun s => s <= c) (ret tt) (fun _ s => s <= c).
Proof. apply triple_ret. intros; assumption. Qed.

(** The handler stays in the deferred activation. *)
Lemma on_splash_closed_stage :
  triple step_stage (fun s => 7 <= s <= 8)
         (try_except on_splash_closed (fun e => emit (slot_exception_reported e)))
         (fun _ s => 7 <= s <= 8).
Proof.
  unfold on_splash_closed, task1_bind_auth, task2_show_window, task3_update_check,
    task4_dashboard, task4_updates, task5_memory.
  open_calls.
  repeat first
    [ apply triple_ret; intros; assumption
    | apply triple_ext;
      [ intros ? ? ?; apply step_stage_deferred; [ assumption | tagged ]
      | intros ? ? ?; apply step_stage_deferred; [ assumption | tagged ] ]
    | apply triple_emit; intros ? ?; apply step_stage_deferred; [ assumption | tagged ]
    | apply triple_if
    | eapply triple_bind with (mid := fun _ s => 7 <= s <= 8);
      [ | intros ? | intros; assumption | intros; assumption ]
    | eapply triple_try with (mid := fun _ s => 7 <= s <= 8);
      [ | intros ? | intros; assumption | intros; assumption ] ].
Qed.

Lemma event_loop_stage :
  triple step_stage (fun s => s <= 6) (event_loop on_splash_closed)
         (fun _ s => s <= 8).
Proof.
  unfold event_loop. open_calls.
  eapply triple_bind with (mid := fun _ s => s <= 6).
  - apply triple_ext; intros ? ? ?;
      apply (step_stage_within 6); (assumption || lia || tagged).
  - intros _. eapply triple_bind with (mid := fun _ s => s <= 8).
    + apply triple_branch.
      * eapply triple_bind with (mid := fun _ s => 7 <= s <= 8).
        -- apply triple_emit. intros s Hs. exists 7. split; [|lia].
           unfold step_stage. cbn [phase_of ev_call].
           assert (H : Nat.leb s signal_index = true)
             by (apply Nat.leb_le; unfold signal_index; lia).
           rewrite H. reflexivity.
        -- intros _. eapply triple_conseq; [apply on_splash_closed_stage | |];
             cbn; intros; (assumption || lia).
        -- cbn. intros. lia.
        -- cbn. intros. lia.
      * apply triple_ret. intros. lia.
    + intros _. apply triple_silent; [reflexivity | intros; assumption].
    + intros; assumption.
    + intros; assumption.
  - cbn. intros. lia.
  - cbn. intros. lia.
Qed.

Ltac stage_of_block :=
  first [ apply logging_init_stage | apply data_bootstrap_stage
        | apply window_icon_stage | apply resource_paths_stage
        | apply resolve_gif_directory_stage | apply resolve_logo_stage
        | apply auth_init_stage | apply window_construction_stage
        | apply loading_screen_display_stage | apply connect_stage ].

(** A chain of blocks, closed by [last]. *)
Ltac stage_chain last :=
  first [ eapply stage_seq;
          [ stage_of_block | intros ?; stage_chain last | lia | lia ]
        | last ].

Lemma main_body_stage :
  triple step_stage (fun s => s <= 1) main_body (fun _ s => s <= 8).
Proof.
  unfold main_body, resources_onward, auth_onward.
  stage_chain ltac:(
    eapply triple_bind with (mid := fun _ s => s <= 8);
    [ apply event_loop_stage
    | intros status; apply triple_sys_exit; intros; assumption
    | intros; assumption | intros; assumption ]).
Qed.

Lemma stages_before_stage s :
  triple step_stage (fun s0 => s0 <= 0) (stages_before s)
         (fun _ s1 => s1 < stage_index s).
Proof.
  destruct (stage_index s) as [|n] eqn:Hindex; [destruct s; discriminate|].
  eapply triple_conseq with (post := fun _ s1 => s1 <= n)
                            (pre := fun s0 => s0 <= Nat.min n 1);
    [ | cbn; intros; lia | cbn; intros; lia ].
  destruct s; injection Hindex as <-; cbn [stages_before Nat.min];
    [ apply triple_ret; intros; lia | stage_chain ltac:(apply stage_end) .. ].
Qed.

(** ** Reading the stage monitor *)

Lemma phase_of_stage ev s :
  stage_of (ev_call ev) = Some s -> phase_of ev = Some (stage_index s).
Proof.
  unfold phase_of. destruct (ev_call ev); intros H; cbv beta iota;
    first [ rewrite H; reflexivity | cbn in H; discriminate H ].
Qed.

Lemma phase_of_signal ev :
  phase_of ev = Some signal_index -> ev_call ev = splash_closed_emitted.
Proof.
  unfold phase_of.
  destruct (ev_call ev); cbv beta iota; try reflexivity;
    match goal with
    | |- option_map _ ?x = _ -> _ => destruct x as [[]|]; discriminate
    end.
Qed.

Lemma phase_of_range ev p : phase_of ev = Some p -> 1 <= p <= 8.
Proof.
  unfold phase_of.
  destruct (ev_call ev); cbv beta iota;
    try (intros [= <-]; unfold signal_index; lia);
    match goal with
    | |- option_map _ ?x = _ -> _ =>
        destruct x as [[]|]; cbn; intros [= <-]; lia
    end.
Qed.

Lemma step_stage_inv cur ev s' :
  step_stage cur ev = Some s' ->
  cur <= s' /\
  forall p, phase_of ev = Some p ->
            s' = p /\ (p = stage_index DeferredActivation -> signal_index <= cur).
Proof.
  unfold step_stage. destruct (phase_of ev) as [p|].
  - destruct (Nat.leb cur p) eqn:Hle; [|discriminate].
    destruct (Nat.eqb p (stage_index DeferredActivation)) eqn:Heq;
      cbn [negb orb andb].
    + destruct (Nat.leb signal_index cur) eqn:Hsig; [|discriminate].
      intros [= <-]. apply Nat.leb_le in Hle, Hsig.
      split; [exact Hle|]. intros q [= <-]. now split.
    + intros [= <-]. apply Nat.leb_le in Hle. apply Nat.eqb_neq in Heq.
      split; [exact Hle|]. intros q [= <-]. split; [reflexivity | congruence].
  - intros [= <-]. split; [lia | discriminate].
Qed.

(** The positions of the events of an accepted trace lie between the
    state at its start and the state at its end. *)
Lemma monitor_stage_bounds t :
  forall s0 s1,
    monitor step_stage s0 t = Some s1 ->
    s0 <= s1 /\
    forall ev p, In ev t -> phase_of ev = Some p -> s0 <= p <= s1.
Proof.
  induction t as [|x t IH]; intros s0 s1 H; cbn in H.
  - injection H as <-. split; [lia | intros ev p []].
  - destruct (step_stage s0 x) as [s'|] eqn:Hstep; [|discriminate].
    destruct (step_stage_inv _ _ _ Hstep) as [Hle Hphase].
    destruct (IH _ _ H) as [Hle' Hin]. split; [lia|].
    intros ev p [<- | Hev] Hp.
    + destruct (Hphase p Hp) as [-> _]. lia.
    + specialize (Hin ev p Hev Hp). lia.
Qed.

(** An event of the deferred activation is preceded by the completion
    signal. *)
Lemma monitor_stage_signal pre :
  forall s0 s1 ev post,
    monitor step_stage s0 (pre ++ ev :: post) = Some s1 ->
    phase_of ev = Some (stage_index DeferredActivation) ->
    signal_index <= s0 \/
    exists sig, In sig pre /\ ev_call sig = splash_closed_emitted.
Proof.
  induction pre as [|x pre IH]; intros s0 s1 ev post H Hev; cbn in H.
  - destruct (step_stage s0 ev) as [s'|] eqn:Hstep; [|discriminate].
    destruct (step_stage_inv _ _ _ Hstep) as [_ Hphase].
    destruct (Hphase _ Hev) as [_ Hsig]. left. now apply Hsig.
  - destruct (step_stage s0 x) as [s'|] eqn:Hstep; [|discriminate].
    destruct (IH _ _ _ _ H Hev) as [Hs' | (sig & Hin & Hsig)].
    + destruct (step_stage_inv _ _ _ Hstep) as [_ Hphase].
      destruct (phase_of x) as [p|] eqn:Hx.
      * destruct (Hphase p eq_refl) as [-> Hdeferred].
        destruct (Nat.eq_dec p (stage_index DeferredActivation)) as [Hp | Hp].
        -- left. now apply Hdeferred.
        -- destruct (Nat.eq_dec p signal_index) as [-> | Hp'].
           ++ right. exists x. split; [now left | now apply phase_of_signal].
           ++ exfalso. pose proof (phase_of_range _ _ Hx).
              unfold signal_index in *. cbn in Hp. lia.
      * left. unfold step_stage in Hstep. rewrite Hx in Hstep.
        injection Hstep as <-. exact Hs'.
    + right. exists sig. split; [now right | exact Hsig].
Qed.

(** No event of a stage occurs in what precedes the stage. *)
Lemma stages_before_clean s w h tb ev :
  snd (stages_before s w h) = h ++ tb ->
  In ev tb ->
  stage_of (ev_call ev) <> Some s.
Proof.
  intros Htb Hin Hstage.
  destruct (stages_before_stage s w h) as (t & Ht & Hrun).
  rewrite Htb in Ht. apply app_inv_head in Ht. subst t.
  destruct (Hrun 0 (le_n 0)) as (s1 & Hs1 & Hlt).
  destruct (monitor_stage_bounds _ _ _ Hs1) as [_ Hbounds].
  specialize (Hbounds ev _ Hin (phase_of_stage _ _ Hstage)). lia.
Qed.

(** C9.  In every run of [main] (before decoration), for every event that
    belongs to a stage: the events recorded earlier belong to the same or
    to an earlier stage, in the order LoggingInit, DataBootstrap,
    ResourceResolution, AuthInit, WindowConstruction, LoadingScreenDisplay,
    DeferredActivation; everything that precedes the stage in [main] has
    returned normally, and its events are recorded before the event; and
    an event of the deferred activation handler comes after the whole
    synchronous sequence and after the completion signal of the loading
    screen. *)
Theorem startup_stage_order (w : World) (h pre post : history)
        (ev : event) (s : StartupStage) :
  snd (main_body w h) = h ++ pre ++ ev :: post ->
  stage_of (ev_call ev) = Some s ->
  (forall ev' s',
      In ev' pre -> stage_of (ev_call ev') = Some s' ->
      stage_index s' <= stage_index s)
  /\ (exists before rest,
         stages_before s w h = (Return tt, h ++ before) /\ pre = before ++ rest)
  /\ (s = DeferredActivation ->
      exists sig, In sig pre /\ ev_call sig = splash_closed_emitted).
Proof.
  intros Htrace Hstage.
  pose proof (phase_of_stage _ _ Hstage) as Hphase.
  destruct (main_body_stage w h) as (t & Ht & Hrun).
  rewrite Htrace in Ht. apply app_inv_head in Ht. subst t.
  destruct (Hrun 0 (Nat.le_0_l 1)) as (s1 & Hs1 & _).
  split; [|split].
  - intros ev' s' Hin Hstage'.
    pose proof (phase_of_stage _ _ Hstage') as Hphase'.
    rewrite monitor_app in Hs1.
    destruct (monitor step_stage 0 pre) as [s2|] eqn:Hpre; [|discriminate].
    destruct (monitor_stage_bounds _ _ _ Hpre) as [_ Hbounds].
    specialize (Hbounds ev' _ Hin Hphase').
    cbn in Hs1. destruct (step_stage s2 ev) as [s3|] eqn:Hstep; [|discriminate].
    destruct (step_stage_inv _ _ _ Hstep) as [Hle Hp].
    destruct (Hp _ Hphase) as [-> _]. lia.
  - pose proof (stages_before_initial s w h) as Hinit.
    destruct (triple_appends _ _ _ _ (stages_before_stage s) w h) as (tb & Htb).
    pose proof (stages_before_clean s w h tb) as Hclean.
    destruct (stages_before s w h) as [[[]|e|c] h'] eqn:Hbefore;
      cbn [snd] in Htb.
    + subst h'. destruct Hinit as (rest0 & Hrest0). rewrite Htrace in Hrest0.
      rewrite <- app_assoc in Hrest0. apply app_inv_head in Hrest0.
      apply app_eq_app in Hrest0.
      destruct Hrest0 as (l & [[-> _] | [-> Hl]]).
      * exists tb, l. now split.
      * destruct l as [|x l].
        -- exists pre, []. rewrite !app_nil_r. now split.
        -- cbn in Hl. injection Hl as <- _. exfalso.
           apply (Hclean ev eq_refl); [|exact Hstage].
           apply in_or_app. right. now left.
    + exfalso. rewrite Htrace, Htb in Hinit. apply app_inv_head in Hinit.
      apply (Hclean ev Htb); [|exact Hstage].
      rewrite <- Hinit. apply in_or_app. right. now left.
    + exfalso. rewrite Htrace, Htb in Hinit. apply app_inv_head in Hinit.
      apply (Hclean ev Htb); [|exact Hstage].
      rewrite <- Hinit. apply in_or_app. right. now left.
  - intros ->.
    destruct (monitor_stage_signal _ _ _ _ _ Hs1 Hphase) as [Hsig | Hsig];
      [unfold signal_index in Hsig; lia | exact Hsig].
Qed.

Lemma startup_stage_order_witness :
  stages_before DeferredActivation happy []
  = (Return tt, firstn 22 (snd (main_body happy [])))
  /\ exists sig,
       In sig (firstn 27 (snd (main_body happy []))) /\
       ev_call sig = splash_closed_emitted.
Proof.
  destruct (startup_stage_order happy []
              (firstn 27 (snd (main_body happy [])))
              (skipn 28 (snd (main_body happy [])))
              (Returned window_check_for_updates) DeferredActivation)
    as (_ & (before & rest & Hbefore & _) & Hsignal).
  - vm_compute. reflexivity.
  - reflexivity.
  - split; [|exact (Hsignal eq_refl)].
    rewrite Hbefore. f_equal.
    assert (H : snd (stages_before DeferredActivation happy [])
                = firstn 22 (snd (main_body happy []))) by (vm_compute; reflexivity).
    rewrite Hbefore in H. exact H.
Defined.

(* ================================================================== *)
(** * Further properties: the data bootstrap *)
(* ================================================================== *)

Lemma prefix_split s hay :
  String.prefix s hay = true -> exists rest, hay = s +++ rest.
Proof.
  revert hay. induction s as [|a s IH]; intros hay H.
  - now exists hay.
  - destruct hay as [|b hay]; [discriminate H|]. cbn in H.
    destruct (ascii_dec a b) as [<- |]; [|discriminate H].
    destruct (IH hay H) as (rest & ->). now exists rest.
Qed.

(** X16.  The test [needle in hay] of line 51, as modelled by [contains],
    holds exactly when [hay] is some text, then [needle], then some
    text. *)
Theorem contains_iff_substring (needle hay : string) :
  contains needle hay = true
  <-> exists before rest, hay = before +++ needle +++ rest.
Proof.
  split.
  - induction hay as [|c hay IH]; cbn [contains]; intros H;
      apply orb_prop in H; destruct H as [H | H]; try discriminate H.
    + destruct (prefix_split _ _ H) as (rest & ->). now exists "", rest.
    + destruct (prefix_split _ _ H) as (rest & ->). now exists "", rest.
    + destruct (IH H) as (before & rest & ->). now exists (String c before), rest.
  - intros (before & rest & ->). apply contains_append_r, contains_here.
Qed.

Lemma load_data_body_success w h data_path chunk_size :
  sink_ok w ->
  raises w (h ++ [Returned (LogBook_new None); Returned get_username_from_path])
         (load_call data_path chunk_size) = None ->
  load_data_body data_path chunk_size w h
  = (Return true,
     h ++ [ Returned (LogBook_new None); Returned get_username_from_path;
            Returned (load_call data_path chunk_size) ]).
Proof.
  intros Hsink Hload. unfold load_data_body. open_calls.
  call_ok ltac:(by_sink Hsink). call_ok ltac:(by_sink Hsink).
  unfold try_except, load_call in *.
  destruct (truthy_chunk chunk_size); call_ok ltac:(exact Hload); reflexivity.
Qed.

(** X1.  When [WindFarmDataManager.load_data] returns, [load_data] logs
    nothing and returns [True] after one attempt.  The chunk size is
    passed on only if it is truthy: [None] and [0] both give the call
    without chunk size. *)
Theorem load_data_success (w : World) (h : history)
        (data_path : string) (chunk_size : option Z) :
  0 < max_attempts w ->
  sink_ok w ->
  raises w (h ++ [Returned (LogBook_new None); Returned get_username_from_path])
         (load_call data_path chunk_size) = None ->
  load_data data_path chunk_size w h
  = (Return true,
     h ++ [ Returned (LogBook_new None); Returned get_username_from_path;
            Returned (load_call data_path chunk_size) ])
  /\ attempts_made (load_data_body data_path chunk_size) w h = [Return true]
  /\ (load_call data_path chunk_size = WF_load_data data_path None
      <-> chunk_size = None \/ chunk_size = Some 0%Z).
Proof.
  intros Hn Hsink Hload.
  destruct (retry_first_attempt_settles (load_data_body data_path chunk_size) w h
              (Return true) _ Hn (load_data_body_success _ _ _ _ Hsink Hload))
    as [Hrun Hmade]; [discriminate|].
  split; [exact Hrun|]. split; [exact Hmade|].
  unfold load_call, truthy_chunk. destruct chunk_size as [z|].
  - destruct (Z.eqb_spec z 0) as [-> | Hz]; cbn.
    + split; [now right | reflexivity].
    + split; [discriminate | intros [H | [= H]]; [discriminate H | contradiction]].
  - split; [now left | reflexivity].
Qed.

Lemma load_data_success_witness :
  load_data "/opt/pye/data/TURBINE_INFO" (Some 0%Z) happy []
  = (Return true,
     [ Returned (LogBook_new None); Returned get_username_from_path;
       Returned (WF_load_data "/opt/pye/data/TURBINE_INFO" None) ]).
Proof.
  destruct (load_data_success happy [] "/opt/pye/data/TURBINE_INFO" (Some 0%Z))
    as [Hrun _]; [cbn; lia | intros h c _; reflexivity | reflexivity | exact Hrun].
Defined.

(** X2.  An exception that leaves the body of [load_data] never comes
    from [WindFarmDataManager.load_data]: it was raised by the log book or
    by the creation of the default data, as the last recorded event. *)
Theorem load_data_exception_origin (w : World) (h h' : history)
        (data_path : string) (chunk_size : option Z) (e : exn) :
  load_data_body data_path chunk_size w h = (Raise e, h') ->
  exists h0 c,
    h' = h0 ++ [Raised c e] /\
    (is_sink c = true \/ c = WF_create_default_data).
Proof.
  unfold load_data_body, try_except, bind, ret, ext_unit, ext_text, ext.
  cbv beta. split_all; intros H; try discriminate H;
    injection H as <- <-; do 2 eexists;
    (split; [reflexivity | first [left; reflexivity | right; reflexivity]]).
Qed.

Lemma load_data_exception_origin_witness :
  exists h0 c,
    snd (load_data_body "/opt/pye/data/TURBINE_INFO" None default_data_late [])
    = h0 ++ [Raised c disk_full] /\
    (is_sink c = true \/ c = WF_create_default_data).
Proof.
  apply (load_data_exception_origin default_data_late []
           (snd (load_data_body "/opt/pye/data/TURBINE_INFO" None default_data_late []))
           "/opt/pye/data/TURBINE_INFO" None disk_full).
  reflexivity.
Defined.

Lemma load_data_no_fallback data_path chunk_size :
  triple step_no_fallback (fun _ => True) (load_data data_path chunk_size)
         (fun _ _ => True).
Proof.
  unfold load_data.
  apply (triple_retry step_no_fallback _ (fun _ => True)); [| cbn; eauto | cbn; eauto ].
  unfold load_data_body. open_calls.
  repeat first
    [ apply triple_ret; tauto
    | apply triple_ext; cbn; eauto
    | apply triple_if
    | eapply triple_bind with (mid := fun _ _ => True); [ | intros ? | tauto | tauto ]
    | eapply triple_try with (mid := fun _ _ => True); [ | intros ? | tauto | tauto ] ].
Qed.

Lemma step_no_fallback_spec t s s' :
  monitor step_no_fallback s t = Some s' -> existsb is_fallback_event t = false.
Proof.
  revert s. induction t as [|ev t IH]; intros s H; [reflexivity|].
  cbn in *. unfold step_no_fallback in H at 1.
  destruct (is_fallback_event ev); [discriminate|]. cbn. eauto.
Qed.

(** Whatever [WindFarmDataManager.load_data] does, one attempt of
    [load_data] settles it when reporting and the default data work. *)
Lemma load_data_settles w h data_path chunk_size :
  0 < max_attempts w ->
  sink_ok w ->
  default_data_ok w ->
  let verdict :=
    load_verdict
      (raises w (h ++ [Returned (LogBook_new None); Returned get_username_from_path])
              (load_call data_path chunk_size)) in
  fst (load_data data_path chunk_size w h) = Return verdict
  /\ attempts_made (load_data_body data_path chunk_size) w h = [Return verdict].
Proof.
  intros Hn Hsink Hdefault verdict. subst verdict. unfold load_verdict.
  destruct (raises w _ (load_call data_path chunk_size)) as [e|] eqn:Hload.
  - destruct (contains "No such file or directory" (str e)) eqn:Hmsg.
    + destruct (retry_first_attempt_settles (load_data_body data_path chunk_size) w h
                  (Return true) _ Hn
                  (load_data_body_missing_file w h data_path chunk_size e
                     Hsink Hload Hmsg (Hdefault _)))
        as [Hrun Hmade]; [discriminate|].
      unfold load_data. now rewrite Hrun.
    + destruct (load_data_other_failure w h data_path chunk_size e Hn Hsink Hload Hmsg)
        as [Hrun Hmade].
      now rewrite Hrun.
  - destruct (retry_first_attempt_settles (load_data_body data_path chunk_size) w h
                (Return true) _ Hn (load_data_body_success _ _ _ _ Hsink Hload))
      as [Hrun Hmade]; [discriminate|].
    unfold load_data. now rewrite Hrun.
Qed.

(** X3.  When the log book and the creation of the default data do not
    fail, [load_data] never raises: a single attempt settles it, with
    [True] if the data were loaded or the file was missing and [False] for
    every other load failure.  The data bootstrap of [main] then always
    returns, and nothing of [create_empty_data_fallback] is ever recorded:
    no "Data Loading Fallback" entry, no warning dialog. *)
Theorem data_bootstrap_never_falls_back (w : World) :
  0 < max_attempts w ->
  sink_ok w ->
  default_data_ok w ->
  (forall h data_path chunk_size,
      let verdict :=
        load_verdict
          (raises w (h ++ [Returned (LogBook_new None); Returned get_username_from_path])
                  (load_call data_path chunk_size)) in
      fst (load_data data_path chunk_size w h) = Return verdict
      /\ attempts_made (load_data_body data_path chunk_size) w h = [Return verdict])
  /\
  (forall h,
      raises w h (config_get_data_file_path "TURBINE_INFO") = None ->
      exists t,
        data_bootstrap w h = (Return tt, h ++ t) /\
        existsb is_fallback_event t = false).
Proof.
  intros Hn Hsink Hdefault. split.
  - intros h data_path chunk_size. now apply load_data_settles.
  - intros h Hpath. unfold data_bootstrap. open_calls.
    call_ok ltac:(exact Hpath). unfold try_except.
    set (data_path := text w h (config_get_data_file_path "TURBINE_INFO")).
    set (h1 := h ++ [Returned (config_get_data_file_path "TURBINE_INFO")]).
    destruct (load_data_settles w h1 data_path None Hn Hsink Hdefault) as [Hrun _].
    destruct (load_data_no_fallback data_path None w h1) as (t & Ht & Hmon).
    destruct (Hmon tt I) as (s' & Hs' & _).
    destruct (load_data data_path None w h1) as [r h2] eqn:Hload.
    cbn [fst snd] in Hrun, Ht. subst r h2.
    rewrite (bind_returns _ _ _ _ _ _ Hload). cbn [ret].
    exists (Returned (config_get_data_file_path "TURBINE_INFO") :: t). split.
    + subst h1. now rewrite <- app_assoc.
    + cbn. apply (step_no_fallback_spec t tt s' Hs').
Qed.

Lemma default_data_ok_unreadable_data : default_data_ok unreadable_data.
Proof. intros h. reflexivity. Qed.

Lemma sink_ok_unreadable_data : sink_ok unreadable_data.
Proof. intros h c Hc. destruct c; try discriminate Hc; reflexivity. Qed.

Lemma data_bootstrap_never_falls_back_witness :
  fst (load_data "/opt/pye/data/TURBINE_INFO" None unreadable_data []) = Return false
  /\ exists t,
       data_bootstrap unreadable_data [] = (Return tt, t) /\
       existsb is_fallback_event t = false.
Proof.
  destruct (data_bootstrap_never_falls_back unreadable_data) as [Hload Hboot];
    [cbn; lia | exact sink_ok_unreadable_data | exact default_data_ok_unreadable_data |].
  split.
  - exact (proj1 (Hload [] "/opt/pye/data/TURBINE_INFO" None)).
  - exact (Hboot [] eq_refl).
Defined.

Lemma fallback_body_success w h :
  sink_ok w ->
  let user := text w (h ++ [Returned (LogBook_new None)]) get_username_from_path in
  raises w (h ++ firstn 3 (fallback_events user)) WF_create_default_data = None ->
  create_empty_data_fallback_impl_body w h = (Return tt, h ++ fallback_events user).
Proof.
  intros Hsink user Hcreate. cbn [firstn fallback_events] in Hcreate.
  unfold create_empty_data_fallback_impl_body. open_calls.
  call_ok ltac:(by_sink Hsink). call_ok ltac:(by_sink Hsink). fold user.
  call_ok ltac:(by_sink Hsink). call_ok ltac:(exact Hcreate).
  call_ok ltac:(by_sink Hsink). reflexivity.
Qed.

(** X4.  [create_empty_data_fallback], when the creation of the default
    data works: it logs the warning-level entry "Data Loading Fallback",
    then creates the default data, then shows the warning dialog, in this
    order, in a single attempt, and returns. *)
Theorem create_empty_data_fallback_success (w : World) (h : history) :
  0 < max_attempts w ->
  sink_ok w ->
  let user := text w (h ++ [Returned (LogBook_new None)]) get_username_from_path in
  raises w (h ++ firstn 3 (fallback_events user)) WF_create_default_data = None ->
  create_empty_data_fallback w h = (Return tt, h ++ fallback_events user)
  /\ attempts_made create_empty_data_fallback_impl_body w h = [Return tt].
Proof.
  intros Hn Hsink user Hcreate.
  apply retry_first_attempt_settles; [exact Hn | | discriminate].
  now apply fallback_body_success.
Qed.

Lemma create_empty_data_fallback_success_witness :
  create_empty_data_fallback happy [] = (Return tt, fallback_events "pierre").
Proof.
  destruct (create_empty_data_fallback_success happy [])
    as [Hrun _]; [cbn; lia | intros h c _; reflexivity | reflexivity | exact Hrun].
Defined.

(** One failed attempt with a cause that is not retryable ends the
    loop. *)
Lemma retry_terminal_failure {A} (op : M A) w h e h' :
  0 < max_attempts w ->
  op w h = (Raise e, h') ->
  retryable w e = false ->
  file_operation_retry op w h
  = (Raise e, h' ++ [Returned (retry_log_failure 1 e)]).
Proof.
  intros Hn Hop He. unfold file_operation_retry.
  destruct (max_attempts w) as [|n]; [lia|].
  cbn [retry_loop]. rewrite Hop, He. reflexivity.
Qed.

(** X5.  The way into the fallback: the data file is missing, the
    creation of the default data inside [load_data] raises and is not
    retried, so the exception leaves [load_data]; [main] catches it and
    calls [create_empty_data_fallback], whose own creation of the default
    data works.  The bootstrap returns, and the warning dialog is the last
    thing it records. *)
Theorem data_bootstrap_falls_back (w : World) (h0 : history) (e e' : exn) :
  0 < max_attempts w ->
  sink_ok w ->
  raises w h0 (config_get_data_file_path "TURBINE_INFO") = None ->
  let data_path := text w h0 (config_get_data_file_path "TURBINE_INFO") in
  let h := h0 ++ [Returned (config_get_data_file_path "TURBINE_INFO")] in
  let user := text w (h ++ [Returned (LogBook_new None)]) get_username_from_path in
  let load := WF_load_data data_path None in
  raises w (h ++ [Returned (LogBook_new None); Returned get_username_from_path]) load
    = Some e ->
  contains "No such file or directory" (str e) = true ->
  raises w (h ++ removelast (failed_default_events user load e e'))
         WF_create_default_data = Some e' ->
  retryable w e' = false ->
  let h1 := h ++ failed_default_events user load e e'
              ++ [Returned (retry_log_failure 1 e')] in
  let user1 := text w (h1 ++ [Returned (LogBook_new None)]) get_username_from_path in
  raises w (h1 ++ firstn 3 (fallback_events user1)) WF_create_default_data = None ->
  data_bootstrap w h0 = (Return tt, h1 ++ fallback_events user1).
Proof.
  intros Hn Hsink Hpath data_path h user load Hload Hmsg Hcreate Hterminal
         h1 user1 Hcreate1.
  assert (Hbody : load_data_body data_path None w h
                  = (Raise e', h ++ failed_default_events user load e e')).
  { unfold load_data_body. open_calls.
    call_ok ltac:(by_sink Hsink). call_ok ltac:(by_sink Hsink).
    fold user. unfold try_except. cbn [truthy_chunk]. fold load.
    call_fails Hload. call_ok ltac:(by_sink Hsink). rewrite Hmsg.
    call_ok ltac:(by_sink Hsink).
    cbn [failed_default_events removelast] in Hcreate.
    call_fails Hcreate. reflexivity. }
  pose proof (retry_terminal_failure _ w h e' _ Hn Hbody Hterminal) as Hrun.
  destruct (retry_first_attempt_settles create_empty_data_fallback_impl_body w h1
              (Return tt) (h1 ++ fallback_events user1) Hn)
    as [Hfallback _]; [now apply fallback_body_success | discriminate |].
  unfold data_bootstrap. open_calls. call_ok ltac:(exact Hpath).
  fold data_path h. unfold try_except, load_data.
  rewrite (bind_raises _ _ _ _ _ _ Hrun).
  rewrite <- app_assoc. exact Hfallback.
Qed.

Lemma sink_ok_default_data_late : sink_ok default_data_late.
Proof. intros h c Hc. destruct c; try discriminate Hc; reflexivity. Qed.

Lemma data_bootstrap_falls_back_witness :
  fst (data_bootstrap default_data_late []) = Return tt
  /\ last (snd (data_bootstrap default_data_late [])) (Returned app_exec)
     = Returned (QMessageBox_warning false "Data Loading Error" fallback_warning_text).
Proof.
  pose proof (data_bootstrap_falls_back default_data_late [] file_not_found disk_full)
    as Hrun.
  cbv zeta in Hrun.
  rewrite Hrun;
    [ split; reflexivity | cbn; lia | exact sink_ok_default_data_late
      | reflexivity | reflexivity | reflexivity | reflexivity | reflexivity
      | reflexivity ].
Defined.

(* ================================================================== *)
(** * Further properties: resource resolution *)
(* ================================================================== *)

(** X6.  Resources that are present are left alone: an existing GIF
    directory costs one [is_dir] check, an existing logo one [exists]
    check; nothing is created, nothing is logged, and the logo path stays
    the primary one. *)
Theorem present_resources_left_alone
        (w : World) (h : history) (username : string) (gif_directory logo_path : path) :
  (raises w h (Path_is_dir gif_directory) = None ->
   truth w h (Path_is_dir gif_directory) = true ->
   resolve_gif_directory username gif_directory w h
   = (Return tt, h ++ [Returned (Path_is_dir gif_directory)]))
  /\
  (raises w h (Path_exists logo_path) = None ->
   truth w h (Path_exists logo_path) = true ->
   resolve_logo username logo_path w h
   = (Return logo_path, h ++ [Returned (Path_exists logo_path)])).
Proof.
  split; intros Hcheck Hpresent.
  - unfold resolve_gif_directory. open_calls.
    call_ok ltac:(exact Hcheck). now rewrite Hpresent.
  - unfold resolve_logo. open_calls.
    call_ok ltac:(exact Hcheck). now rewrite Hpresent.
Qed.

Lemma present_resources_left_alone_witness :
  resolve_gif_directory "pierre" "/opt/pye/GIF_DIR" happy []
  = (Return tt, [Returned (Path_is_dir "/opt/pye/GIF_DIR")])
  /\ resolve_logo "pierre" "/opt/pye/ICONS_DIR/splash_icon.svg" happy []
     = (Return "/opt/pye/ICONS_DIR/splash_icon.svg",
        [Returned (Path_exists "/opt/pye/ICONS_DIR/splash_icon.svg")]).
Proof.
  destruct (present_resources_left_alone happy [] "pierre" "/opt/pye/GIF_DIR"
              "/opt/pye/ICONS_DIR/splash_icon.svg") as [Hgif Hlogo].
  split; [apply Hgif | apply Hlogo]; reflexivity.
Defined.

Ltac unnegate :=
  repeat match goal with
         | H : negb _ = true |- _ => apply negb_true_iff in H
         | H : negb _ = false |- _ => apply negb_false_iff in H
         end.

(** X7.  What resource resolution returns exists.  If the check of the
    GIF directory returns, the directory was found or [mkdir] has
    returned.  If the check of the logo returns a path, [exists] has
    answered [True] for that very path: the primary logo, or, after the
    primary one was reported missing, [fallback_logo.svg] joined to the
    directory that [config.get_path("ICONS_DIR")] answered at that
    moment. *)
Theorem resolved_resources_exist
        (w : World) (h h' : history) (username : string) (gif_directory logo_path : path) :
  (resolve_gif_directory username gif_directory w h = (Return tt, h') ->
   (truth w h (Path_is_dir gif_directory) = true /\
    h' = h ++ [Returned (Path_is_dir gif_directory)])
   \/
   (truth w h (Path_is_dir gif_directory) = false /\
    exists rest,
      h' = h ++ Returned (Path_is_dir gif_directory)
             :: Returned (Path_mkdir gif_directory) :: rest))
  /\
  (forall resolved,
      resolve_logo username logo_path w h = (Return resolved, h') ->
      (resolved = logo_path /\
       truth w h (Path_exists logo_path) = true /\
       h' = h ++ [Returned (Path_exists logo_path)])
      \/
      (truth w h (Path_exists logo_path) = false /\
       resolved
       = path_join w (text w (h ++ logo_missing_events username logo_path)
                             (config_get_path "ICONS_DIR"))
                   "fallback_logo.svg" /\
       truth w (h ++ logo_missing_events username logo_path
                  ++ [Returned (config_get_path "ICONS_DIR")])
             (Path_exists resolved) = true /\
       h' = h ++ logo_missing_events username logo_path
              ++ [ Returned (config_get_path "ICONS_DIR");
                   Returned (Path_exists resolved);
                   Returned (log_event username "Resource Fallback"
                                       ("Using fallback logo: " +++ resolved) info) ])).
Proof.
  split.
  - unfold resolve_gif_directory, try_except, bind, ret, sys_exit,
      ext_unit, ext_bool, ext.
    cbv beta. split_all; intros H; try discriminate H; injection H as <-;
      unnegate; flat_in_all; flat;
      first [ left; split; [ assumption | reflexivity ]
            | right; split; [ assumption | eexists; reflexivity ] ].
  - intros resolved.
    unfold resolve_logo, bind, ret, sys_exit, joinpath,
      ext_unit, ext_bool, ext_text, ext.
    cbv beta zeta. split_all; intros H; try discriminate H; injection H as <- <-;
      unnegate; flat_in_all; flat.
    + right. split; [assumption|].
      unfold logo_missing_events. cbn [app].
      split; [reflexivity|]. split; [assumption | reflexivity].
    + left. repeat split. assumption.
Qed.

Lemma resolved_resources_exist_witness :
  "/opt/pye/ICONS_DIR/fallback_logo.svg"
  = path_join logo_missing
              (text logo_missing
                    (logo_missing_events "pierre" "/opt/pye/ICONS_DIR/splash_icon.svg")
                    (config_get_path "ICONS_DIR"))
              "fallback_logo.svg"
  /\ truth logo_missing
        (logo_missing_events "pierre" "/opt/pye/ICONS_DIR/splash_icon.svg"
           ++ [Returned (config_get_path "ICONS_DIR")])
        (Path_exists "/opt/pye/ICONS_DIR/fallback_logo.svg") = true.
Proof.
  destruct (resolved_resources_exist logo_missing []
              (snd (resolve_logo "pierre" "/opt/pye/ICONS_DIR/splash_icon.svg"
                                 logo_missing []))
              "pierre" "/opt/pye/GIF_DIR" "/opt/pye/ICONS_DIR/splash_icon.svg")
    as [_ Hlogo].
  destruct (Hlogo "/opt/pye/ICONS_DIR/fallback_logo.svg" eq_refl)
    as [(Hsame & _) | (_ & Hpath & Hexists & _)].
  - discriminate Hsame.
  - split; [exact Hpath | exact Hexists].
Defined.

(** X8.  The log entry about the created GIF directory is written inside
    the [try] block that creates it.  If [mkdir] returns and that entry
    raises, the [except] clause takes it for a failed creation: it logs
    that the directory "could not be created", shows the critical dialog
    with the text of the logging error, and the process exits with code 1,
    although the directory now exists. *)
Theorem gif_creation_log_failure_is_fatal
        (w : World) (h : history) (username : string) (gif_directory : path) (e : exn) :
  raises w h (Path_is_dir gif_directory) = None ->
  truth w h (Path_is_dir gif_directory) = false ->
  raises w (h ++ [Returned (Path_is_dir gif_directory)]) (Path_mkdir gif_directory)
    = None ->
  raises w (h ++ firstn 2 (gif_unlogged_events username gif_directory e))
         (log_event username "Resource Creation"
                    ("Created missing GIF directory: " +++ gif_directory) info)
    = Some e ->
  raises w (h ++ firstn 3 (gif_unlogged_events username gif_directory e))
         (log_event username "Resource Error" (gif_error_text gif_directory) error)
    = None ->
  raises w (h ++ firstn 4 (gif_unlogged_events username gif_directory e))
         (log_event username "Resource Error" ("Error: " +++ str e) error)
    = None ->
  raises w (h ++ firstn 5 (gif_unlogged_events username gif_directory e))
         (QMessageBox_critical "Resource Error" (gif_dialog_text gif_directory e))
    = None ->
  resolve_gif_directory username gif_directory w h
  = (SystemExit 1%Z, h ++ gif_unlogged_events username gif_directory e)
  /\ contains (str e) (gif_dialog_text gif_directory e) = true.
Proof.
  intros Hcheck Habsent Hmkdir Hlog Herr1 Herr2 Hdialog.
  cbn [firstn gif_unlogged_events] in *. split.
  - unfold resolve_gif_directory. open_calls.
    call_ok ltac:(exact Hcheck). rewrite Habsent. cbn [negb]. unfold try_except.
    call_ok ltac:(exact Hmkdir). call_fails Hlog.
    call_ok ltac:(exact Herr1). call_ok ltac:(exact Herr2).
    call_ok ltac:(exact Hdialog). reflexivity.
  - unfold gif_dialog_text. do 4 apply contains_append_r. apply contains_here.
Qed.

Lemma gif_creation_log_failure_is_fatal_witness :
  resolve_gif_directory "pierre" "/opt/pye/GIF_DIR" creation_unlogged []
  = (SystemExit 1%Z, gif_unlogged_events "pierre" "/opt/pye/GIF_DIR" log_refused).
Proof.
  destruct (gif_creation_log_failure_is_fatal creation_unlogged [] "pierre"
              "/opt/pye/GIF_DIR" log_refused) as [Hrun _];
    [reflexivity | reflexivity | reflexivity | reflexivity | reflexivity
     | reflexivity | reflexivity | exact Hrun].
Defined.

(* ================================================================== *)
(** * Further properties: the activation handler *)
(* ================================================================== *)

(** X9.  Task 4 reports exactly when one of its calls raised: the
    exception is answered with one error-level entry "Dashboard
    Initialization Error" carrying its text and one warning dialog on the
    main window, after which the task returns; and if the updates return,
    the task records nothing more than the updates.  Assumed: reporting
    does not fail. *)
Theorem dashboard_failure_reported (w : World) (h h' : history) :
  sink_ok w ->
  (forall e,
      task4_updates w h = (Raise e, h') ->
      task4_dashboard w h
      = (Return tt, h' ++ dashboard_failure_events (text w h' get_username_from_path) e))
  /\
  (task4_updates w h = (Return tt, h') -> task4_dashboard w h = (Return tt, h')).
Proof.
  intros Hsink. split.
  - intros e Hupdates. unfold task4_dashboard, try_except. rewrite Hupdates.
    open_calls. call_ok ltac:(by_sink Hsink). call_ok ltac:(by_sink Hsink).
    call_ok ltac:(by_sink Hsink). reflexivity.
  - intros Hupdates. unfold task4_dashboard, try_except. now rewrite Hupdates.
Qed.

Lemma sink_ok_dashboard_broken : sink_ok dashboard_broken.
Proof. intros h c Hc. destruct c; try discriminate Hc; reflexivity. Qed.

Lemma dashboard_failure_reported_witness :
  task4_dashboard dashboard_broken []
  = (Return tt,
     [ Returned combo_box_currentText;
       Raised (dashboard_update_dashboard "Park A") no_such_park ]
     ++ dashboard_failure_events "pierre" no_such_park).
Proof.
  destruct (dashboard_failure_reported dashboard_broken []
              [ Returned combo_box_currentText;
                Raised (dashboard_update_dashboard "Park A") no_such_park ]
              sink_ok_dashboard_broken) as [Hfail _].
  apply (Hfail no_such_park). reflexivity.
Defined.

(** X10.  A failure of the memory probe in task 5 is logged once, at
    warning level, without any dialog, and the task returns; a probe that
    returns leaves no other trace.  Assumed: reporting does not fail. *)
Theorem memory_failure_logged_as_warning (w : World) (h : history) :
  sink_ok w ->
  (forall e,
      raises w h WF_monitor_memory_usage = Some e ->
      task5_memory w h
      = (Return tt,
         h ++ memory_failure_events
                (text w (h ++ [Raised WF_monitor_memory_usage e]) get_username_from_path)
                e))
  /\
  (raises w h WF_monitor_memory_usage = None ->
   task5_memory w h = (Return tt, h ++ [Returned WF_monitor_memory_usage])).
Proof.
  intros Hsink. split.
  - intros e Hprobe. unfold task5_memory, try_except. open_calls.
    call_fails Hprobe. call_ok ltac:(by_sink Hsink). call_ok ltac:(by_sink Hsink).
    reflexivity.
  - intros Hprobe. unfold task5_memory, try_except. open_calls.
    call_ok ltac:(exact Hprobe). reflexivity.
Qed.

Lemma sink_ok_memory_probe_fails : sink_ok memory_probe_fails.
Proof. intros h c Hc. destruct c; try discriminate Hc; reflexivity. Qed.

Lemma memory_failure_logged_as_warning_witness :
  task5_memory memory_probe_fails []
  = (Return tt, memory_failure_events "pierre" no_psutil).
Proof.
  destruct (memory_failure_logged_as_warning memory_probe_fails []
              sink_ok_memory_probe_fails) as [Hfail _].
  apply (Hfail no_psutil). reflexivity.
Defined.

(** X11.  Task 1 calls [window.set_auth_service] only if [hasattr] has
    answered [True]; on a window without that attribute it records the
    check alone and returns. *)
Theorem auth_binding_only_if_supported (w : World) (h : history) :
  (raises w h hasattr_set_auth_service = None ->
   truth w h hasattr_set_auth_service = false ->
   task1_bind_auth w h = (Return tt, h ++ [Returned hasattr_set_auth_service]))
  /\
  (forall t ev,
      snd (task1_bind_auth w h) = h ++ t ->
      In ev t ->
      ev_call ev = window_set_auth_service ->
      raises w h hasattr_set_auth_service = None /\
      truth w h hasattr_set_auth_service = true).
Proof.
  split.
  - intros Hcheck Habsent. unfold task1_bind_auth. open_calls.
    call_ok ltac:(exact Hcheck). now rewrite Habsent.
  - intros t ev. unfold task1_bind_auth, bind, ret, ext_unit, ext_bool, ext.
    cbv beta. split_all; flat; cbn [snd]; intros Ht Hin Hev;
      apply app_inv_head in Ht; subst t; cbn [In] in Hin;
      repeat (destruct Hin as [<- | Hin]; [try discriminate Hev|]);
      try contradiction; now split.
Qed.

Lemma auth_binding_only_if_supported_witness :
  task1_bind_auth plain_window [] = (Return tt, [Returned hasattr_set_auth_service]).
Proof.
  destruct (auth_binding_only_if_supported plain_window []) as [Hplain _].
  apply Hplain; reflexivity.
Defined.

Lemma step_handler_scope_spec t s s' :
  monitor step_handler_scope s t = Some s' -> forallb in_handler_scope t = true.
Proof.
  revert s. induction t as [|ev t IH]; intros s H; [reflexivity|].
  cbn in *. unfold step_handler_scope in H at 1.
  destruct (in_handler_scope ev); [|discriminate]. cbn. eauto.
Qed.

(** X12.  The activation handler stays within its scope: whatever the
    collaborators return or raise, every call that [on_splash_closed]
    records is to the window and its views, the memory probe, the look-up
    of the operator identity, its three log entries or its warning dialog;
    in particular it loads no data, touches no file system and shows no
    critical dialog. *)
Theorem on_splash_closed_stays_in_scope (w : World) (h : history) :
  exists t,
    snd (on_splash_closed w h) = h ++ t /\
    forallb in_handler_scope t = true.
Proof.
  assert (H : triple step_handler_scope (fun _ => True) on_splash_closed
                     (fun _ _ => True)).
  { unfold on_splash_closed, task1_bind_auth, task2_show_window, task3_update_check,
      task4_dashboard, task4_updates, task5_memory.
    open_calls.
    repeat first
      [ apply triple_ret; tauto
      | apply triple_ext; any_step
      | apply triple_if
      | eapply triple_bind with (mid := fun _ _ => True);
        [ | intros ? | tauto | tauto ]
      | eapply triple_try with (mid := fun _ _ => True);
        [ | intros ? | tauto | tauto ] ]. }
  destruct (H w h) as (t & Ht & Hrun).
  destruct (Hrun tt I) as (s' & Hs' & _).
  exists t. split; [exact Ht|].
  exact (step_handler_scope_spec t tt s' Hs').
Qed.

(* ================================================================== *)
(** * Further properties: how [main] ends *)
(* ================================================================== *)

Lemma never_returns_bind {A B} (m : M A) (k : A -> M B) :
  (forall a, never_returns (k a)) -> never_returns (bind m k).
Proof.
  intros Hk w h b. unfold bind.
  destruct (m w h) as [[a|e|c] h1]; [apply Hk | discriminate | discriminate].
Qed.

(** X13.  The body of [main] never returns normally: it has no [return]
    and its last statement is [sys.exit(app.exec())], so every run ends in
    an exception, which is left to the error boundary, or in the end of
    the process. *)
Theorem main_body_never_returns (w : World) (h : history) (a : unit) :
  fst (main_body w h) <> Return a.
Proof.
  revert w h a. change (never_returns main_body).
  unfold main_body, resources_onward, auth_onward.
  repeat (apply never_returns_bind; intros ?).
  intros w h u. discriminate.
Qed.

(** ** A critical dialog is the last thing [main] does *)

Lemma step_critical_spec pre :
  forall t s' ev post,
    monitor step_critical false t = Some s' ->
    t = pre ++ ev :: post ->
    critical_returned ev = true ->
    post = [] /\ s' = true.
Proof.
  induction pre as [|x pre IH]; intros t s' ev post H -> Hev; cbn in H.
  - unfold step_critical in H at 1. rewrite Hev in H.
    destruct post as [|y post]; cbn in H; [now injection H as <- | discriminate H].
  - unfold step_critical in H at 1.
    destruct (critical_returned x).
    + destruct pre; discriminate H.
    + eapply IH; eauto.
Qed.

Ltac calm_step :=
  intros;
  repeat match goal with H : critical_end _ _ |- _ => cbn in H end;
  subst; eexists; split; reflexivity.

Lemma data_bootstrap_calm :
  triple step_critical (fun s => s = false) data_bootstrap (fun _ s => s = false).
Proof.
  unfold data_bootstrap, load_data, load_data_body, create_empty_data_fallback,
    create_empty_data_fallback_impl_body.
  open_calls.
  repeat first
    [ apply triple_ret; intros; assumption
    | apply triple_ext; calm_step
    | apply triple_if
    | apply (triple_retry step_critical _ (fun s => s = false));
      [ | calm_step | calm_step ]
    | eapply triple_bind with (mid := fun _ s => s = false);
      [ | intros ? | intros; assumption | intros; assumption ]
    | eapply triple_try with (mid := fun _ s => s = false);
      [ | intros ? | intros; assumption | intros; assumption ] ].
Qed.

Lemma critical_dialog_then_exit {A} title message :
  triple step_critical (fun s => s = false)
         (ext_unit (QMessageBox_critical title message) ;; @sys_exit A 1%Z)
         critical_end.
Proof.
  intros w h. unfold bind, ext_unit, ext, sys_exit.
  destruct (raises w h _) as [e|].
  - exists [Raised (QMessageBox_critical title message) e]. split; [reflexivity|].
    intros s ->. now exists false.
  - exists [Returned (QMessageBox_critical title message)]. split; [reflexivity|].
    intros s ->. exists true. split; [reflexivity | now right].
Qed.

Lemma main_body_critical :
  triple step_critical (fun s => s = false) main_body critical_end.
Proof.
  unfold main_body, resources_onward, auth_onward, event_loop, on_splash_closed,
    logging_init, window_icon, resource_paths,
    resolve_gif_directory, resolve_logo, auth_init, window_construction,
    loading_screen_display, task1_bind_auth, task2_show_window,
    task3_update_check, task4_dashboard, task4_updates, task5_memory.
  open_calls.
  repeat first
    [ apply critical_dialog_then_exit
    | eapply triple_conseq;
      [ apply data_bootstrap_calm
      | intros ? Hs; exact Hs
      | intros [?|?|?] ? Hs; cbn; auto ]
    | apply triple_ret; intros ? Hs; exact Hs
    | apply triple_sys_exit; intros; now left
    | apply triple_ext; calm_step
    | apply triple_emit; calm_step
    | apply triple_if
    | apply triple_branch
    | apply triple_silent; [ reflexivity | intros [?|?|?] ? Hs; cbn; auto ]
    | eapply triple_bind with (mid := critical_end);
      [ | intros ? | intros ? ? Hs; exact Hs | intros ? ? Hs; exact Hs ]
    | eapply triple_try with (mid := critical_end);
      [ | intros ? | intros ? ? Hs; exact Hs | intros ? ? Hs; exact Hs ] ].
Qed.

(** X14.  In every run of the body of [main], a critical dialog that has
    returned is the last event recorded, and the process then exits with
    code 1: nothing is ever done after the user has been told that the
    application will exit. *)
Theorem critical_dialog_is_final (w : World) (h pre post : history) (ev : event) :
  snd (main_body w h) = h ++ pre ++ ev :: post ->
  critical_returned ev = true ->
  post = [] /\ fst (main_body w h) = SystemExit 1%Z.
Proof.
  intros Htrace Hev.
  destruct (main_body_critical w h) as (t & Ht & Hrun).
  rewrite Htrace in Ht. apply app_inv_head in Ht. subst t.
  destruct (Hrun false eq_refl) as (s' & Hs' & Hend).
  destruct (step_critical_spec pre _ s' ev post Hs' eq_refl Hev) as [-> ->].
  split; [reflexivity|].
  destruct (fst (main_body w h)) as [a|e|code]; cbn in Hend; try discriminate Hend.
  destruct Hend as [Hend | ->]; [discriminate Hend | reflexivity].
Qed.

Lemma critical_dialog_is_final_witness :
  fst (main_body no_logo []) = SystemExit 1%Z.
Proof.
  destruct (critical_dialog_is_final no_logo []
              (removelast (snd (main_body no_logo []))) []
              (Returned (QMessageBox_critical "Resource Error"
                           (logo_dialog_text "/opt/pye/ICONS_DIR/splash_icon.svg"))))
    as [_ Hexit]; [vm_compute; reflexivity | reflexivity | exact Hexit].
Defined.


(* ================================================================== *)
(** * Further properties: a start without incident *)
(* ================================================================== *)

Section Smooth.
Variable w : World.
Hypothesis Hquiet : forall h c, raises w h c = None.
Hypothesis Hattempts : 0 < max_attempts w.

Lemma smooth_ret {A} (a : A) : smooth w (ret a) (fun _ => True) [].
Proof.
  intros h. exists a, []. cbn. rewrite app_nil_r. repeat split. apply incl_refl.
Qed.

Lemma smooth_joinpath p name : smooth w (joinpath p name) (fun _ => True) [].
Proof.
  intros h. exists (path_join w p name), []. cbn. rewrite app_nil_r.
  repeat split. apply incl_refl.
Qed.

Lemma smooth_ext {A} (answer : World -> history -> call -> A) c :
  is_report (Returned c) = false ->
  smooth w (ext answer c) (fun _ => True) [].
Proof.
  intros Hc h. unfold ext. rewrite Hquiet.
  exists (answer w h c), [Returned c]. cbn. rewrite Hc.
  repeat split. apply incl_nil_l.
Qed.

Lemma smooth_ext_seen {A} (answer : World -> history -> call -> A) c :
  is_report (Returned c) = false ->
  smooth w (ext answer c) (fun _ => True) [Returned c].
Proof.
  intros Hc h. unfold ext. rewrite Hquiet.
  exists (answer w h c), [Returned c]. cbn. rewrite Hc.
  repeat split. apply incl_refl.
Qed.

Lemma smooth_check c :
  (forall h, truth w h c = true) ->
  is_report (Returned c) = false ->
  smooth w (ext truth c) (fun present => present = true) [].
Proof.
  intros Htrue Hc h. unfold ext. rewrite Hquiet.
  exists (truth w h c), [Returned c]. cbn. rewrite Hc.
  repeat split; [apply Htrue | apply incl_nil_l].
Qed.

Lemma smooth_emit c :
  is_report (Returned c) = false -> smooth w (emit c) (fun _ => True) [Returned c].
Proof.
  intros Hc h. exists tt, [Returned c]. cbn. rewrite Hc.
  repeat split. apply incl_refl.
Qed.

Lemma smooth_bind {A B} (m : M A) (k : A -> M B) Q1 Q2 must1 must2 :
  smooth w m Q1 must1 ->
  (forall a, Q1 a -> smooth w (k a) Q2 must2) ->
  smooth w (bind m k) Q2 (must1 ++ must2).
Proof.
  intros Hm Hk h. destruct (Hm h) as (a & t1 & Hrun1 & Ha & Hquiet1 & Hmust1).
  destruct (Hk a Ha (h ++ t1)) as (b & t2 & Hrun2 & Hb & Hquiet2 & Hmust2).
  exists b, (t1 ++ t2). rewrite (bind_returns _ _ _ _ _ _ Hrun1), Hrun2.
  repeat split.
  - now rewrite app_assoc.
  - exact Hb.
  - rewrite existsb_app, Hquiet1, Hquiet2. reflexivity.
  - apply incl_app; [now apply incl_appl | now apply incl_appr].
Qed.

Lemma smooth_try {A} (body : M A) (handler : exn -> M A) Q must :
  smooth w body Q must -> smooth w (try_except body handler) Q must.
Proof.
  intros Hm h. destruct (Hm h) as (a & t & Hrun & Hrest).
  exists a, t. unfold try_except. now rewrite Hrun.
Qed.

Lemma smooth_if {A} (b : bool) (m1 m2 : M A) Q must1 must2 :
  smooth w m1 Q must1 -> smooth w m2 Q must2 ->
  smooth w (if b then m1 else m2) Q [].
Proof.
  intros H1 H2 h. destruct b; [destruct (H1 h) as (a & t & Hrun & Ha & Hq & _)
                              | destruct (H2 h) as (a & t & Hrun & Ha & Hq & _)];
    exists a, t; repeat split; auto using incl_nil_l.
Qed.

Lemma smooth_retry {A} (op : M A) Q must :
  smooth w op Q must -> smooth w (file_operation_retry op) Q must.
Proof.
  intros Hop h. destruct (Hop h) as (a & t & Hrun & Hrest).
  exists a, t.
  destruct (retry_first_attempt_settles op w h (Return a) _ Hattempts Hrun)
    as [-> _]; [discriminate | exact (conj eq_refl Hrest)].
Qed.

Lemma exits_bind {A} (m : M A) (k : A -> M unit) Q must1 must2 :
  smooth w m Q must1 ->
  (forall a, Q a -> exits_smoothly w (k a) must2) ->
  exits_smoothly w (bind m k) (must1 ++ must2).
Proof.
  intros Hm Hk h. destruct (Hm h) as (a & t1 & Hrun1 & Ha & Hquiet1 & Hmust1).
  destruct (Hk a Ha (h ++ t1)) as (t2 & Hrun2 & Hquiet2 & Hmust2).
  exists (t1 ++ t2). rewrite (bind_returns _ _ _ _ _ _ Hrun1), Hrun2.
  repeat split.
  - now rewrite !app_assoc.
  - rewrite existsb_app, Hquiet1, Hquiet2. reflexivity.
  - apply incl_app; [now apply incl_appl | now apply incl_appr].
Qed.
End Smooth.

Ltac smoothly Hquiet Hattempts :=
  repeat lazymatch goal with
         | |- smooth _ (ret _) _ _ => apply smooth_ret
         | |- smooth _ (joinpath _ _) _ _ => apply smooth_joinpath
         | |- smooth _ (ext _ _) _ _ =>
             first [ apply (smooth_ext_seen _ Hquiet); reflexivity
                   | apply (smooth_ext _ Hquiet); reflexivity ]
         | |- smooth _ (emit _) _ _ => apply smooth_emit; reflexivity
         | |- smooth _ (file_operation_retry _) _ _ =>
             eapply (smooth_retry _ Hattempts)
         | |- smooth _ (try_except _ _) _ _ => eapply smooth_try
         | |- smooth _ (if _ then _ else _) _ _ => eapply smooth_if
         | |- smooth _ (bind _ _) _ _ => eapply smooth_bind; [ | intros ? _ ]
         end.

Ltac find_event := cbn [app]; repeat first [ apply in_eq | apply in_cons ].

Lemma bind_assoc {A B C} (m : M A) (f : A -> M B) (g : B -> M C) w h :
  bind (bind m f) g w h = bind m (fun x => bind (f x) g) w h.
Proof. unfold bind. now destruct (m w h) as [[a|e|c] h1]. Qed.

Lemma event_loop_exits_smoothly w :
  all_well w ->
  exits_smoothly w (status <- event_loop on_splash_closed ;; sys_exit status)
                 [Returned window_show; Returned WF_monitor_memory_usage].
Proof.
  intros (Hquiet & _ & _ & Hsignal) h.
  assert (Hslot : exists must,
             smooth w (emit splash_closed_emitted ;;
                       try_except on_splash_closed
                         (fun e => emit (slot_exception_reported e)))
                    (fun _ => True) must /\
             incl [Returned window_show; Returned WF_monitor_memory_usage] must).
  { eexists. split.
    - unfold on_splash_closed, task1_bind_auth, task2_show_window,
        task3_update_check, task4_dashboard, task4_updates, task5_memory.
      open_calls. smoothly Hquiet Hquiet.
    - intros ev [<- | [<- | []]]; find_event. }
  destruct Hslot as (must & Hslot & Hmust).
  destruct (Hslot (h ++ [Returned app_exec])) as (a & t & Hrun & _ & Hreports & Hincl).
  exists (Returned app_exec :: t). split; [|split].
  - unfold event_loop. rewrite bind_assoc. open_calls.
    call_ok ltac:(apply Hquiet). rewrite bind_assoc.
    match goal with
    | |- bind ?branch _ _ _ = _ =>
        assert (Hbranch : branch w (h ++ [Returned app_exec])
                          = (Return a, (h ++ [Returned app_exec]) ++ t))
          by (cbv beta; rewrite Hsignal; exact Hrun)
    end.
    rewrite (bind_returns _ _ _ _ _ _ Hbranch).
    rewrite <- app_assoc. reflexivity.
  - exact Hreports.
  - intros ev Hev. right. apply Hincl, Hmust, Hev.
Qed.

(** X15.  When no collaborator raises, the GIF directory and the logo
    exist and the loading screen signals its completion, [main] builds and
    shows the loading screen, runs the activation handler, which shows the
    main window and samples the memory usage, and exits with the status
    returned by [app.exec()]; on the way it writes no log entry and shows
    no dialog. *)
Theorem start_without_incident (w : World) (h : history) :
  0 < max_attempts w ->
  all_well w ->
  exists t,
    main w h = (SystemExit (number w (h ++ t) app_exec), h ++ t) /\
    In (Returned splash_show) t /\
    In (Returned window_show) t /\
    In (Returned WF_monitor_memory_usage) t /\
    existsb is_report t = false.
Proof.
  intros Hn Hwell. pose proof Hwell as (Hquiet & Hdir & Hexists & Hsignal).
  assert (Hbody : exists must,
             exits_smoothly w main_body must /\
             incl [Returned splash_show; Returned window_show;
                   Returned WF_monitor_memory_usage] must).
  { eexists. split.
    - unfold main_body, resources_onward, auth_onward.
      eapply exits_bind; [ unfold logging_init; open_calls; smoothly Hquiet Hn | intros username _ ].
      eapply exits_bind;
        [ unfold data_bootstrap, load_data, load_data_body; open_calls;
          smoothly Hquiet Hn | intros _ _ ].
      eapply exits_bind; [ unfold window_icon; open_calls; smoothly Hquiet Hn | intros _ _ ].
      eapply exits_bind; [ unfold resource_paths; open_calls; smoothly Hquiet Hn | intros paths _ ].
      eapply exits_bind with (Q := fun _ => True).
      { unfold resolve_gif_directory. open_calls.
        eapply smooth_bind;
          [ apply (smooth_check _ Hquiet); [ intros; apply Hdir | reflexivity ]
          | intros present ->; cbn [negb]; apply smooth_ret ]. }
      intros _ _.
      eapply exits_bind with (Q := fun _ => True).
      { unfold resolve_logo. open_calls.
        eapply smooth_bind;
          [ apply (smooth_check _ Hquiet); [ intros; apply Hexists | reflexivity ]
          | intros present ->; cbn [negb]; apply smooth_ret ]. }
      intros logo_path _.
      eapply exits_bind; [ unfold auth_init; open_calls; smoothly Hquiet Hn | intros _ _ ].
      eapply exits_bind;
        [ unfold window_construction; open_calls; smoothly Hquiet Hn | intros _ _ ].
      eapply exits_bind;
        [ unfold loading_screen_display; open_calls; smoothly Hquiet Hn | intros _ _ ].
      eapply exits_bind; [ open_calls; smoothly Hquiet Hn | intros _ _ ].
      now apply event_loop_exits_smoothly.
    - intros ev [<- | [<- | [<- | []]]];
        repeat first [ apply in_eq | apply in_cons
                     | apply in_or_app; right ]. }
  destruct Hbody as (must & Hbody & Hmust).
  destruct (Hbody h) as (t & Hrun & Hreports & Hincl).
  exists t. unfold main, handle_critical_errors, try_except. rewrite Hrun.
  repeat split; try assumption; apply Hincl, Hmust; cbn; tauto.
Qed.

Lemma all_well_happy : all_well happy.
Proof. repeat split. Qed.

Lemma start_without_incident_witness :
  fst (main happy []) = SystemExit 0%Z.
Proof.
  destruct (start_without_incident happy []) as (t & Hrun & _);
    [cbn; lia | exact all_well_happy |].
  rewrite Hrun. reflexivity.
Defined.
